(** * X-Ray with Blue: the capture / analyse / present controller of [src/App.tsx]

    A shallow embedding of the React component [App], of the remote analysis
    call [performAIAnalysis] and of the platform functions they rely on
    ([JSON.parse], [String.prototype.split], [FileReader.readAsDataURL]),
    followed by the properties of the session state machine.

    Conventions.
    - A JavaScript string is a [string] of bytes (its UTF-8 encoding).
    - A JavaScript value that may be [undefined] is an [option]; [None] is
      [undefined] (or [null] for the [useState] slots initialised with
      [null]).
    - A JSON number is kept as an exact decimal; no floating point is used.
    - An event handler is the list of the effects it performs, in program
      order; an asynchronous function is cut at its [await].
    - What the platform decides (the file chosen, the URL a reader or a
      canvas reports, the outcome of the remote call) comes with the event.
    - The camera stream of [CameraInterface] and the limits of an engine
      (stack depth, memory) are outside the model. *)

From Stdlib Require Import String Ascii List ZArith NArith Bool Lia Arith.
Import ListNotations.

#[local] Set Warnings "-register-all".

Local Open Scope string_scope.
Local Open Scope list_scope.

(* ===================================================================== *)
(** ** Characters and strings *)
(* ===================================================================== *)

Definition chr (n : N) : ascii := ascii_of_N n.
Definition code (c : ascii) : N := N_of_ascii c.

Definition QUOTE : ascii := chr 34.
Definition BACKSLASH : ascii := chr 92.

Definition str1 (c : ascii) : string := String c EmptyString.

Definition is_digit (c : ascii) : bool :=
  (48 <=? code c)%N && (code c <=? 57)%N.

Definition digit_val (c : ascii) : N := (code c - 48)%N.

(** Value of a hexadecimal digit, as accepted after a backslash-u escape. *)
Definition hex_val (c : ascii) : option N :=
  let n := code c in
  if (48 <=? n)%N && (n <=? 57)%N then Some (n - 48)%N
  else if (65 <=? n)%N && (n <=? 70)%N then Some (n - 55)%N
  else if (97 <=? n)%N && (n <=? 102)%N then Some (n - 87)%N
  else None.

(** The four JSON white space characters: tab, line feed, carriage return,
    space. *)
Definition is_ws (c : ascii) : bool :=
  let n := code c in
  (n =? 9)%N || (n =? 10)%N || (n =? 13)%N || (n =? 32)%N.

Fixpoint skip_ws (s : list ascii) : list ascii :=
  match s with
  | c :: r => if is_ws c then skip_ws r else s
  | [] => []
  end.

(** UTF-8 encoding of a code point (generalised to lone surrogates, which a
    JavaScript string may hold). *)
Definition utf8_encode (cp : N) : list ascii :=
  if (cp <? 128)%N then [chr cp]
  else if (cp <? 2048)%N then
    [chr (192 + cp / 64); chr (128 + cp mod 64)]
  else if (cp <? 65536)%N then
    [chr (224 + cp / 4096); chr (128 + (cp / 64) mod 64); chr (128 + cp mod 64)]
  else
    [chr (240 + cp / 262144); chr (128 + (cp / 4096) mod 64);
     chr (128 + (cp / 64) mod 64); chr (128 + cp mod 64)].

Definition is_high_surrogate (u : N) : bool := (55296 <=? u)%N && (u <=? 56319)%N.
Definition is_low_surrogate (u : N) : bool := (56320 <=? u)%N && (u <=? 57343)%N.

(** [String.prototype.split] with a one-character separator: the pieces
    between the occurrences of [sep], in order; always at least one piece. *)
Fixpoint split_on (sep : ascii) (s : string) : list string :=
  match s with
  | EmptyString => [EmptyString]
  | String c r =>
      if Ascii.eqb c sep then EmptyString :: split_on sep r
      else match split_on sep r with
           | p :: ps => String c p :: ps
           | [] => [str1 c]
           end
  end.

(** [ToString] of a string that may be [undefined], as in a template literal
    or in the argument conversion of [JSON.parse]. *)
Definition ToString (v : option string) : string :=
  match v with
  | Some s => s
  | None => "undefined"
  end.

(* ===================================================================== *)
(** ** JSON values and JavaScript's view of them *)
(* ===================================================================== *)

(** What [JSON.parse] can return.  [JNumber neg m e] is the decimal
    [(-1)^neg * m * 10^e].  An object is the list of its own properties in
    insertion order, with distinct names. *)
Inductive json : Type :=
| JNull
| JBool (b : bool)
| JNumber (neg : bool) (mantissa : N) (exp10 : Z)
| JString (s : string)
| JArray (items : list json)
| JObject (props : list (string * json)).

(** [obj[k] = v] on an object under construction: a repeated name overwrites
    the value and keeps the position of the first occurrence. *)
Fixpoint set_prop (k : string) (v : json) (props : list (string * json))
  : list (string * json) :=
  match props with
  | [] => [(k, v)]
  | (k', v') :: r =>
      if String.eqb k k' then (k, v) :: r else (k', v') :: set_prop k v r
  end.

Fixpoint get_prop (k : string) (props : list (string * json)) : option json :=
  match props with
  | [] => None
  | (k', v') :: r => if String.eqb k k' then Some v' else get_prop k r
  end.

(** Property read [v.k] on a non-null JSON value, for a name [k] that no
    prototype defines: [None] is [undefined]. *)
Definition field (k : string) (v : json) : option json :=
  match v with
  | JObject props => get_prop k props
  | _ => None
  end.

(** A decimal rounds to the double zero exactly when it is at most
    [2^-1075] in magnitude. *)
Definition number_is_zero (mantissa : N) (exp10 : Z) : bool :=
  (mantissa =? 0)%N ||
  ((exp10 <? 0)%Z &&
   (Z.of_N mantissa * 2 ^ 1075 <=? 10 ^ (- exp10))%Z).

(** JavaScript truthiness ([ToBoolean]). *)
Definition truthy (v : json) : bool :=
  match v with
  | JNull => false
  | JBool b => b
  | JNumber _ m e => negb (number_is_zero m e)
  | JString s => negb (String.eqb s "")
  | JArray _ => true
  | JObject _ => true
  end.

(* ===================================================================== *)
(** ** [JSON.parse] *)
(* ===================================================================== *)

(** Outcome of a parsing function: a value and the unread input, a
    [SyntaxError], or exhaustion of the recursion budget (which
    [JSON_parse_fuel] below rules out for the budget [JSON_parse] gives). *)
Inductive presult (A : Type) : Type :=
| POk (a : A) (rest : list ascii)
| PSyntaxError
| POutOfFuel.
Arguments POk {A} a rest.
Arguments PSyntaxError {A}.
Arguments POutOfFuel {A}.

(** *** String literals *)

(** Position inside a string literal: ordinary text, just after a backslash,
    or inside the four hexadecimal digits of a unicode escape with [k] digits
    still to come after the next one and value [v] so far. *)
Inductive smode : Type :=
| MPlain
| MEscape
| MHex (k : nat) (v : N).

Definition simple_escape (c : ascii) : option ascii :=
  let n := code c in
  if (n =? 34)%N then Some (chr 34)
  else if (n =? 92)%N then Some (chr 92)
  else if (n =? 47)%N then Some (chr 47)
  else if (n =? 98)%N then Some (chr 8)
  else if (n =? 102)%N then Some (chr 12)
  else if (n =? 110)%N then Some (chr 10)
  else if (n =? 114)%N then Some (chr 13)
  else if (n =? 116)%N then Some (chr 9)
  else None.

(** Output is accumulated in reverse.  [pending] is a high surrogate read
    from an escape and not yet written: it pairs with a low surrogate escape
    that follows immediately, and stands alone otherwise. *)
Definition flush (pending : option N) (acc : list ascii) : list ascii :=
  match pending with
  | Some h => rev (utf8_encode h) ++ acc
  | None => acc
  end.

Definition emit_unit (pending : option N) (u : N) (acc : list ascii)
  : option N * list ascii :=
  match pending with
  | Some h =>
      if is_low_surrogate u then
        (None, rev (utf8_encode (65536 + (h - 55296) * 1024 + (u - 56320))) ++ acc)
      else if is_high_surrogate u then (Some u, rev (utf8_encode h) ++ acc)
      else (None, rev (utf8_encode u) ++ rev (utf8_encode h) ++ acc)
  | None =>
      if is_high_surrogate u then (Some u, acc)
      else (None, rev (utf8_encode u) ++ acc)
  end.

(** The characters of a string literal after its opening quote, up to and
    including the closing quote. *)
Fixpoint parse_chars (m : smode) (pending : option N) (acc : list ascii)
  (s : list ascii) : presult string :=
  match s with
  | [] => PSyntaxError
  | c :: r =>
      match m with
      | MPlain =>
          if Ascii.eqb c QUOTE then
            POk (string_of_list_ascii (rev (flush pending acc))) r
          else if Ascii.eqb c BACKSLASH then parse_chars MEscape pending acc r
          else if (code c <? 32)%N then PSyntaxError
          else parse_chars MPlain None (c :: flush pending acc) r
      | MEscape =>
          if (code c =? 117)%N then parse_chars (MHex 3 0) pending acc r
          else match simple_escape c with
               | Some d => parse_chars MPlain None (d :: flush pending acc) r
               | None => PSyntaxError
               end
      | MHex k v =>
          match hex_val c with
          | None => PSyntaxError
          | Some d =>
              let v' := (v * 16 + d)%N in
              match k with
              | O => let '(p, acc') := emit_unit pending v' acc in
                     parse_chars MPlain p acc' r
              | S k' => parse_chars (MHex k' v') pending acc r
              end
          end
      end
  end.

(** *** Numbers *)

(** Reads the longest run of decimal digits; returns the value accumulated
    onto [acc], the count of digits read added to [n], and the rest. *)
Fixpoint take_digits (s : list ascii) (acc : N) (n : nat)
  : N * nat * list ascii :=
  match s with
  | c :: r =>
      if is_digit c then take_digits r (acc * 10 + digit_val c)%N (S n)
      else (acc, n, s)
  | [] => (acc, n, [])
  end.

Definition parse_fraction (int : N) (s : list ascii)
  : option (N * nat * list ascii) :=
  match s with
  | c :: r =>
      if (code c =? 46)%N then
        let '(m, n, rest) := take_digits r int 0 in
        if Nat.eqb n 0 then None else Some (m, n, rest)
      else Some (int, 0, s)
  | [] => Some (int, 0, [])
  end.

Definition parse_exponent (s : list ascii) : option (Z * list ascii) :=
  match s with
  | c :: r =>
      if (code c =? 101)%N || (code c =? 69)%N then
        let '(sgn, r1) :=
          match r with
          | d :: r' =>
              if (code d =? 45)%N then ((-1)%Z, r')
              else if (code d =? 43)%N then (1%Z, r')
              else (1%Z, r)
          | [] => (1%Z, r)
          end in
        let '(e, n, rest) := take_digits r1 0 0 in
        if Nat.eqb n 0 then None else Some ((sgn * Z.of_N e)%Z, rest)
      else Some (0%Z, s)
  | [] => Some (0%Z, [])
  end.

(** The fraction and exponent after the integer part [int]. *)
Definition parse_frac_exp (neg : bool) (int : N) (s : list ascii) : presult json :=
  match parse_fraction int s with
  | None => PSyntaxError
  | Some (m, fd, s3) =>
      match parse_exponent s3 with
      | None => PSyntaxError
      | Some (e, s4) => POk (JNumber neg m (e - Z.of_nat fd)) s4
      end
  end.

(** A number after its optional minus sign: a single zero or a run of digits
    that does not start with zero, then fraction and exponent. *)
Definition parse_unsigned (neg : bool) (s : list ascii) : presult json :=
  match s with
  | [] => PSyntaxError
  | c :: r =>
      if negb (is_digit c) then PSyntaxError
      else if (code c =? 48)%N then parse_frac_exp neg 0 r
      else let '(v, _, rest) := take_digits s 0 0 in parse_frac_exp neg v rest
  end.

Definition parse_number (s : list ascii) : presult json :=
  match s with
  | c :: r =>
      if (code c =? 45)%N then parse_unsigned true r else parse_unsigned false s
  | [] => PSyntaxError
  end.

(** *** Literal names *)

Fixpoint strip_prefix (w : list ascii) (s : list ascii) : option (list ascii) :=
  match w with
  | [] => Some s
  | a :: w' =>
      match s with
      | c :: r => if Ascii.eqb a c then strip_prefix w' r else None
      | [] => None
      end
  end.

Definition parse_literal (w : string) (v : json) (s : list ascii) : presult json :=
  match strip_prefix (list_ascii_of_string w) s with
  | Some r => POk v r
  | None => PSyntaxError
  end.

(** *** Values *)

(** Builds the object from its members in source order; a repeated name keeps
    its last value. *)
Definition build_object (members : list (string * json)) : json :=
  JObject (fold_left (fun props kv => set_prop (fst kv) (snd kv) props) members []).

(** Recursive descent.  [parse_value] skips leading white space and reads one
    value; [parse_elements] reads the elements of an array after its opening
    bracket, [parse_members] the members of an object after its opening
    brace, both up to and including the closing character.  [acc] holds what
    was read so far, most recent first. *)
Fixpoint parse_value (fuel : nat) (s : list ascii) {struct fuel} : presult json :=
  match fuel with
  | O => POutOfFuel
  | S fuel' =>
      match skip_ws s with
      | [] => PSyntaxError
      | c :: r =>
          let n := code c in
          if (n =? 123)%N then
            match skip_ws r with
            | d :: r' =>
                if (code d =? 125)%N then POk (JObject []) r'
                else parse_members fuel' (d :: r') []
            | [] => PSyntaxError
            end
          else if (n =? 91)%N then
            match skip_ws r with
            | d :: r' =>
                if (code d =? 93)%N then POk (JArray []) r'
                else parse_elements fuel' (d :: r') []
            | [] => PSyntaxError
            end
          else if (n =? 34)%N then
            match parse_chars MPlain None [] r with
            | POk str rest => POk (JString str) rest
            | PSyntaxError => PSyntaxError
            | POutOfFuel => POutOfFuel
            end
          else if (n =? 116)%N then parse_literal "true" (JBool true) (c :: r)
          else if (n =? 102)%N then parse_literal "false" (JBool false) (c :: r)
          else if (n =? 110)%N then parse_literal "null" JNull (c :: r)
          else parse_number (c :: r)
      end
  end

with parse_elements (fuel : nat) (s : list ascii) (acc : list json)
  {struct fuel} : presult json :=
  match fuel with
  | O => POutOfFuel
  | S fuel' =>
      match parse_value fuel' s with
      | POk v rest =>
          match skip_ws rest with
          | c :: r =>
              if (code c =? 44)%N then parse_elements fuel' r (v :: acc)
              else if (code c =? 93)%N then POk (JArray (rev (v :: acc))) r
              else PSyntaxError
          | [] => PSyntaxError
          end
      | PSyntaxError => PSyntaxError
      | POutOfFuel => POutOfFuel
      end
  end

with parse_members (fuel : nat) (s : list ascii) (acc : list (string * json))
  {struct fuel} : presult json :=
  match fuel with
  | O => POutOfFuel
  | S fuel' =>
      match skip_ws s with
      | q :: r0 =>
          if negb (code q =? 34)%N then PSyntaxError
          else
            match parse_chars MPlain None [] r0 with
            | POk key r1 =>
                match skip_ws r1 with
                | c :: r2 =>
                    if negb (code c =? 58)%N then PSyntaxError
                    else
                      match parse_value fuel' r2 with
                      | POk v rest =>
                          match skip_ws rest with
                          | d :: r =>
                              if (code d =? 44)%N then
                                parse_members fuel' r ((key, v) :: acc)
                              else if (code d =? 125)%N then
                                POk (build_object (rev ((key, v) :: acc))) r
                              else PSyntaxError
                          | [] => PSyntaxError
                          end
                      | PSyntaxError => PSyntaxError
                      | POutOfFuel => POutOfFuel
                      end
                | [] => PSyntaxError
                end
            | PSyntaxError => PSyntaxError
            | POutOfFuel => POutOfFuel
            end
      | [] => PSyntaxError
      end
  end.

(** Recursion budget that [JSON_parse] grants for a text of the given
    length. *)
Definition parse_fuel (s : list ascii) : nat := 2 * length s + 1.

(** [JSON.parse(text)]: [Some v] is the value returned, [None] a thrown
    [SyntaxError].  The whole text must be one value surrounded by optional
    white space. *)
Definition JSON_parse (text : string) : option json :=
  let s := list_ascii_of_string text in
  match parse_value (parse_fuel s) s with
  | POk v rest =>
      match skip_ws rest with
      | [] => Some v
      | _ :: _ => None
      end
  | PSyntaxError => None
  | POutOfFuel => None
  end.

(** *** [JSON.stringify], for the values used below *)

Definition escape_char (c : ascii) : string :=
  if Ascii.eqb c QUOTE then String BACKSLASH (str1 QUOTE)
  else if Ascii.eqb c BACKSLASH then String BACKSLASH (str1 BACKSLASH)
  else str1 c.

Fixpoint escape_string (s : string) : string :=
  match s with
  | EmptyString => EmptyString
  | String c r => (escape_char c ++ escape_string r)%string
  end.

Definition quote_string (s : string) : string :=
  (str1 QUOTE ++ escape_string s ++ str1 QUOTE)%string.

Fixpoint intersperse (sep : string) (l : list string) : string :=
  match l with
  | [] => ""
  | [x] => x
  | x :: r => (x ++ sep ++ intersperse sep r)%string
  end.

Definition N_digits_fuel (n : N) : nat := S (N.to_nat (N.log2 n)).

Fixpoint N_to_decimal_aux (fuel : nat) (n : N) (acc : string) : string :=
  match fuel with
  | O => acc
  | S fuel' =>
      let acc' := String (chr (48 + n mod 10)) acc in
      if (n / 10 =? 0)%N then acc' else N_to_decimal_aux fuel' (n / 10) acc'
  end.

Definition N_to_decimal (n : N) : string :=
  N_to_decimal_aux (N_digits_fuel n) n "".

(** Compact serialisation, members and elements in order.  Only text without
    control characters is given to it here. *)
Fixpoint JSON_stringify (v : json) : string :=
  match v with
  | JNull => "null"
  | JBool true => "true"
  | JBool false => "false"
  | JNumber neg m e =>
      ((if neg then "-" else "") ++ N_to_decimal m ++
       (if (e =? 0)%Z then ""
        else "e" ++ (if (e <? 0)%Z then "-" else "") ++ N_to_decimal (Z.abs_N e)))%string
  | JString s => quote_string s
  | JArray items => ("[" ++ intersperse "," (map JSON_stringify items) ++ "]")%string
  | JObject props =>
      ("{" ++ intersperse ","
                (map (fun kv => (quote_string (fst kv) ++ ":" ++ JSON_stringify (snd kv))%string)
                     props) ++ "}")%string
  end.

(** *** The declared shape of a result *)

(** [interface AnalysisResult]. *)
Record AnalysisResult : Type := {
  imagingType : string;
  organName : string;
  findings : string;
  professionalDetails : list string
}.

(** The JSON object of a result, fields in the order of the schema. *)
Definition to_json (r : AnalysisResult) : json :=
  JObject
    [("imagingType", JString (imagingType r));
     ("organName", JString (organName r));
     ("findings", JString (findings r));
     ("professionalDetails", JArray (map JString (professionalDetails r)))].

(** Text without control characters (which a JSON string literal must
    escape). *)
Definition plain (s : string) : bool :=
  forallb (fun c => negb (code c <? 32)%N) (list_ascii_of_string s).

Definition plain_result (r : AnalysisResult) : bool :=
  plain (imagingType r) && plain (organName r) && plain (findings r) &&
  forallb plain (professionalDetails r).

(* ===================================================================== *)
(** ** Files and data URLs *)
(* ===================================================================== *)

(** A file picked in the upload input: the media type the platform declares
    for it and its content. *)
Record File : Type := {
  file_type : string;
  file_bytes : list Byte.byte
}.

Definition base64_alphabet : string :=
  "ABCDEFGHIJKLMNOPQRSTUVWXYZabcdefghijklmnopqrstuvwxyz0123456789+/".

Definition base64_digit (n : N) : ascii :=
  match String.get (N.to_nat n) base64_alphabet with
  | Some c => c
  | None => chr 61
  end.

(** Standard base64 with [=] padding. *)
Fixpoint base64_encode (bs : list Byte.byte) : string :=
  match bs with
  | a :: b :: c :: r =>
      let n := (Byte.to_N a * 65536 + Byte.to_N b * 256 + Byte.to_N c)%N in
      String (base64_digit (n / 262144))
        (String (base64_digit ((n / 4096) mod 64))
           (String (base64_digit ((n / 64) mod 64))
              (String (base64_digit (n mod 64)) (base64_encode r))))
  | [a; b] =>
      let n := (Byte.to_N a * 65536 + Byte.to_N b * 256)%N in
      String (base64_digit (n / 262144))
        (String (base64_digit ((n / 4096) mod 64))
           (String (base64_digit ((n / 64) mod 64)) "="))
  | [a] =>
      let n := (Byte.to_N a * 65536)%N in
      String (base64_digit (n / 262144))
        (String (base64_digit ((n / 4096) mod 64)) "==")
  | [] => ""
  end.

(** The [result] that the File API prescribes for a [FileReader] after
    [readAsDataURL(file)]: the data URL of the file under its declared
    type. *)
Definition readAsDataURL (f : File) : string :=
  ("data:" ++ file_type f ++ ";base64," ++ base64_encode (file_bytes f))%string.

(** [url.split(',')[1]]: the piece after the first comma, [undefined] when
    there is no comma. *)
Definition payload_of (url : string) : option string :=
  nth_error (split_on (chr 44) url) 1.

(* ===================================================================== *)
(** ** The remote analysis call *)
(* ===================================================================== *)

(** [process.env], as far as the program reads it. *)
Record ProcessEnv : Type := {
  API_KEY : option string
}.

(** Response schemas of the model API. *)
Inductive Schema : Type :=
| STRING
| ARRAY (items : Schema)
| OBJECT (properties : list (string * Schema)) (required : list string).

Inductive Part : Type :=
| inlineData (mimeType : string) (data : option string)
| text (t : string).

(** The client and the argument of [ai.models.generateContent]. *)
Record GenerateContentCall : Type := {
  apiKey : string;
  model : string;
  parts : list Part;
  responseMimeType : string;
  responseSchema : Schema
}.

(** How the call to the model service ends: the promise rejects (transport
    or service failure, or any error raised by the client), or it fulfils
    with a response whose [text] may be [undefined]. *)
Inductive RemoteOutcome : Type :=
| Rejected
| Responded (response_text : option string).

(** How an asynchronous function ends. *)
Inductive Completion (A : Type) : Type :=
| Returned (a : A)
| Threw.
Arguments Returned {A} a.
Arguments Threw {A}.

(** An asynchronous function up to its first suspension: it has already
    ended without calling the service, or it has issued a call and continues
    from the outcome. *)
Inductive Async (A : Type) : Type :=
| Settled (c : Completion A)
| Awaiting (call : GenerateContentCall) (k : RemoteOutcome -> Completion A).
Arguments Settled {A} c.
Arguments Awaiting {A} call k.

Definition settle {A : Type} (a : Async A) (o : RemoteOutcome) : Completion A :=
  match a with
  | Settled c => c
  | Awaiting _ k => k o
  end.

Definition prompt : string :=
  ("
    أنت خبير أشعة عالمي في نظام " ++ str1 QUOTE ++ "X-Ray with Blue" ++ str1 QUOTE ++ ". حلل هذه الصورة بدقة طبية عالية.
    يجب أن يكون الرد باللغة العربية حصراً وبصيغة JSON.
    التفاصيل المطلوبة:
    1. نوع التصوير (مثال: أشعة سينية لليد، أشعة مقطعية للصدر).
    2. اسم العضو المصور.
    3. النتائج والملاحظات الطبية الأساسية.
    4. قائمة بتفاصيل احترافية دقيقة يراها المختصون.
  ")%string.

Definition analysis_schema : Schema :=
  OBJECT
    [("imagingType", STRING); ("organName", STRING); ("findings", STRING);
     ("professionalDetails", ARRAY STRING)]
    ["imagingType"; "organName"; "findings"; "professionalDetails"].

(** The message shown for every failed analysis. *)
Definition ERROR_MESSAGE : string :=
  "عذراً، لم نتمكن من تحليل الصورة. تأكد من وضوح الأشعة وحاول مجدداً.".

(** [performAIAnalysis]: builds the client from the ambient key
    ([process.env.API_KEY || '']), calls [generateContent] with the image
    labelled [image/jpeg], the prompt and the schema, and returns
    [JSON.parse(response.text)] cast, unchecked, to [AnalysisResult].
    Nothing precedes the call but the construction of the client and of the
    prompt; an error raised inside the client library is a [Rejected]
    outcome. *)
Definition performAIAnalysis (env : ProcessEnv) (base64Image : option string)
  : Async json :=
  Awaiting
    {| apiKey := match API_KEY env with
                 | Some key => key
                 | None => ""
                 end;
       model := "gemini-3-flash-preview";
       parts := [inlineData "image/jpeg" base64Image; text prompt];
       responseMimeType := "application/json";
       responseSchema := analysis_schema |}
    (fun outcome =>
       match outcome with
       | Rejected => Threw
       | Responded response_text =>
           match JSON_parse (ToString response_text) with
           | Some v => Returned v
           | None => Threw
           end
       end).

(* ===================================================================== *)
(** ** The session: state of the [App] component *)
(* ===================================================================== *)

Inductive AppState : Type := IDLE | CAMERA | ANALYZING | RESULT | ERROR.

(** The four [useState] slots.  [result] holds whatever [JSON.parse]
    returned, [JNull] being [null]; the two optional strings are [null] when
    [None]. *)
Record Session : Type := {
  state : AppState;
  result : json;
  imagePreview : option string;
  errorMsg : option string
}.

Definition initial_session : Session :=
  {| state := IDLE; result := JNull; imagePreview := None; errorMsg := None |}.

(** A call of one of the four state setters. *)
Inductive Write : Type :=
| setState (s : AppState)
| setResult (r : json)
| setImagePreview (p : string)
| setErrorMsg (m : string).

Definition apply_write (w : Write) (s : Session) : Session :=
  match w with
  | setState st =>
      {| state := st; result := result s;
         imagePreview := imagePreview s; errorMsg := errorMsg s |}
  | setResult r =>
      {| state := state s; result := r;
         imagePreview := imagePreview s; errorMsg := errorMsg s |}
  | setImagePreview p =>
      {| state := state s; result := result s;
         imagePreview := Some p; errorMsg := errorMsg s |}
  | setErrorMsg m =>
      {| state := state s; result := result s;
         imagePreview := imagePreview s; errorMsg := Some m |}
  end.

(** What a handler does, in program order: setter calls, the start of an
    analysis call, the start of a file read, a print request. *)
Inductive Effect : Type :=
| Set_ (w : Write)
| Spawn (call : Async json)
| ReadFile (f : File)
| Print.

(** The component together with what is outstanding around it: whether it is
    still mounted, the file reads not yet loaded and the analysis calls not
    yet completed, oldest first. *)
Record World : Type := {
  env : ProcessEnv;
  session : Session;
  mounted : bool;
  readers : list File;
  inflight : list (Async json)
}.

Definition initial_world (e : ProcessEnv) : World :=
  {| env := e; session := initial_session; mounted := true;
     readers := []; inflight := [] |}.

Definition exec (e : Effect) (w : World) : World :=
  match e with
  | Set_ wr =>
      {| env := env w; session := apply_write wr (session w);
         mounted := mounted w; readers := readers w; inflight := inflight w |}
  | Spawn call =>
      {| env := env w; session := session w; mounted := mounted w;
         readers := readers w; inflight := inflight w ++ [call] |}
  | ReadFile f =>
      {| env := env w; session := session w; mounted := mounted w;
         readers := readers w ++ [f]; inflight := inflight w |}
  | Print => w
  end.

Definition run (effs : list Effect) (w : World) : World :=
  fold_left (fun w e => exec e w) effs w.

Fixpoint remove_nth {A : Type} (k : nat) (l : list A) {struct l} : list A :=
  match l with
  | [] => []
  | x :: r =>
      match k with
      | O => r
      | S k' => x :: remove_nth k' r
      end
  end.

(** *** Rendering *)

(** Whether React accepts a JSON value as a child: text and numbers are
    shown, [null] and booleans show nothing, arrays show their elements,
    plain objects are refused with an error. *)
Fixpoint valid_child (v : json) : bool :=
  match v with
  | JObject _ => false
  | JArray items => forallb valid_child items
  | _ => true
  end.

Definition valid_child_opt (v : option json) : bool :=
  match v with
  | Some x => valid_child x
  | None => true
  end.

(** Whether the result view evaluates without an error for a truthy
    [result]: the three scalar fields are rendered as children and
    [result.professionalDetails.map] must be the array method. *)
Definition result_view_renders (r : json) : bool :=
  valid_child_opt (field "imagingType" r) &&
  valid_child_opt (field "organName" r) &&
  valid_child_opt (field "findings" r) &&
  match field "professionalDetails" r with
  | Some (JArray items) => forallb valid_child items
  | _ => false
  end.

(** Whether rendering [App] in this session succeeds.  Only the result view
    evaluates expressions that can throw. *)
Definition renders (s : Session) : bool :=
  match state s with
  | RESULT => if truthy (result s) then result_view_renders (result s) else true
  | _ => true
  end.

(** An error during rendering unmounts the component (there is no error
    boundary). *)
Definition rerender (w : World) : World :=
  if renders (session w) then w
  else {| env := env w; session := session w; mounted := false;
          readers := readers w; inflight := inflight w |}.

Definition is_write (e : Effect) : bool :=
  match e with
  | Set_ _ => true
  | _ => false
  end.

(** Runs a handler to its end; if it called a setter the component renders
    again with the final values.  (Rendering between two setter calls of one
    handler could only differ in a state that is already on screen, so the
    batching policy of the React version does not matter.) *)
Definition commit (effs : list Effect) (w : World) : World :=
  if existsb is_write effs then rerender (run effs w) else run effs w.

(** *** Handlers *)

(** [startProcessing], up to its [await]. *)
Definition startProcessing (e : ProcessEnv) (base64 : option string) : list Effect :=
  [ Set_ (setImagePreview ("data:image/jpeg;base64," ++ ToString base64)%string);
    Set_ (setState ANALYZING);
    Spawn (performAIAnalysis e base64) ].

(** [startProcessing], from the completion of the awaited call: the [try]
    branch after a return, the [catch] branch after a throw. *)
Definition startProcessing_resume (c : Completion json) : list Effect :=
  match c with
  | Returned data => [Set_ (setResult data); Set_ (setState RESULT)]
  | Threw => [Set_ (setErrorMsg ERROR_MESSAGE); Set_ (setState ERROR)]
  end.

(** [handleUpload], given [e.target.files?.[0]]. *)
Definition handleUpload (file : option File) : list Effect :=
  match file with
  | Some f => [ReadFile f]
  | None => []
  end.

(** The [onload] callback installed by [handleUpload], given
    [reader.result]. *)
Definition reader_onload (e : ProcessEnv) (reader_result : string) : list Effect :=
  startProcessing e (payload_of reader_result).

(** [handleSnap] of the camera view, given what [canvas.toDataURL] returns
    for the frame drawn ([canvas] and [video] are attached whenever the
    shutter button exists). *)
Definition handleSnap (e : ProcessEnv) (canvas_dataURL : string) : list Effect :=
  startProcessing e (payload_of canvas_dataURL).

(** *** Events *)

(** What can happen to the component: clicks on the controls it renders, a
    file chosen in the upload input, and the completions of file reads and
    analysis calls, addressed by their position among the outstanding ones.
    An event carries what the platform hands to the handler: the chosen
    file, [reader.result], the URL that [canvas.toDataURL] returns, the
    outcome of the remote call. *)
Inductive Event : Type :=
| ClickHome
| ChooseFile (file : option File)
| ReaderLoaded (k : nat) (reader_result : string)
| ClickOpenCamera
| ClickShutter (canvas_dataURL : string)
| ClickCloseCamera
| AnalysisCompleted (k : nat) (o : RemoteOutcome)
| ClickNewScan
| ClickExport
| ClickBack.

Definition drop_reader (k : nat) (w : World) : World :=
  {| env := env w; session := session w; mounted := mounted w;
     readers := remove_nth k (readers w); inflight := inflight w |}.

Definition drop_inflight (k : nat) (w : World) : World :=
  {| env := env w; session := session w; mounted := mounted w;
     readers := readers w; inflight := remove_nth k (inflight w) |}.

(** The handler an event runs, as the effects it performs.  A control acts
    only where the JSX renders it: the home button when [state !== IDLE],
    the upload input and the camera button in [IDLE], the camera view in
    [CAMERA], the result view when [state === RESULT && result], the error
    view in [ERROR].  A completion runs its continuation whatever the
    state. *)
Definition handler (w : World) (ev : Event) : list Effect :=
  let s := session w in
  match ev with
  | ClickHome =>
      match state s with
      | IDLE => []
      | _ => [Set_ (setState IDLE)]
      end
  | ChooseFile file =>
      match state s with
      | IDLE => handleUpload file
      | _ => []
      end
  | ReaderLoaded k reader_result =>
      match nth_error (readers w) k with
      | Some _ => reader_onload (env w) reader_result
      | None => []
      end
  | ClickOpenCamera =>
      match state s with
      | IDLE => [Set_ (setState CAMERA)]
      | _ => []
      end
  | ClickShutter url =>
      match state s with
      | CAMERA => handleSnap (env w) url
      | _ => []
      end
  | ClickCloseCamera =>
      match state s with
      | CAMERA => [Set_ (setState IDLE)]
      | _ => []
      end
  | AnalysisCompleted k o =>
      match nth_error (inflight w) k with
      | Some call => startProcessing_resume (settle call o)
      | None => []
      end
  | ClickNewScan =>
      match state s with
      | RESULT => if truthy (result s) then [Set_ (setState IDLE)] else []
      | _ => []
      end
  | ClickExport =>
      match state s with
      | RESULT => if truthy (result s) then [Print] else []
      | _ => []
      end
  | ClickBack =>
      match state s with
      | ERROR => [Set_ (setState IDLE)]
      | _ => []
      end
  end.

(** A completion is delivered once: it leaves the outstanding ones. *)
Definition consume (w : World) (ev : Event) : World :=
  match ev with
  | ReaderLoaded k _ => drop_reader k w
  | AnalysisCompleted k _ => drop_inflight k w
  | _ => w
  end.

(** One event.  Nothing reaches an unmounted component. *)
Definition step (w : World) (ev : Event) : World :=
  if mounted w then commit (handler w ev) (consume w ev) else w.

Definition steps (w : World) (evs : list Event) : World :=
  fold_left step evs w.

(** The worlds the program can be in. *)
Definition reachable (w : World) : Prop :=
  exists (e : ProcessEnv) (evs : list Event), w = steps (initial_world e) evs.

(** *** The transition table of the specification (section 4.1) *)

(** The events of the table.  Both completion rows are for [Analyzing], so
    one kind stands for them. *)
Inductive SpecEvent : Type :=
| requestCamera
| imageSelected
| shutterPressed
| cancel
| analysisCompleted
| reset.

(** The table's event an event of the program stands for; exporting is not
    in the table. *)
Definition spec_event (ev : Event) : option SpecEvent :=
  match ev with
  | ClickHome | ClickNewScan | ClickBack => Some reset
  | ChooseFile _ | ReaderLoaded _ _ => Some imageSelected
  | ClickOpenCamera => Some requestCamera
  | ClickShutter _ => Some shutterPressed
  | ClickCloseCamera => Some cancel
  | AnalysisCompleted _ _ => Some analysisCompleted
  | ClickExport => None
  end.

(** Whether the table has a row for this state and event. *)
Definition spec_row (st : AppState) (e : SpecEvent) : bool :=
  match st, e with
  | IDLE, requestCamera => true
  | IDLE, imageSelected => true
  | CAMERA, shutterPressed => true
  | CAMERA, cancel => true
  | ANALYZING, analysisCompleted => true
  | RESULT, reset => true
  | ERROR, reset => true
  | _, _ => false
  end.

Definition spec_listed (st : AppState) (ev : Event) : bool :=
  match spec_event ev with
  | Some e => spec_row st e
  | None => false
  end.

(** *** Data of the examples *)

(** The well-formed result of the specification's round-trip property. *)
Definition hand : AnalysisResult :=
  {| imagingType := "X-Ray, hand";
     organName := "Left hand";
     findings := "No acute fracture.";
     professionalDetails := ["Mild soft tissue swelling"; "No dislocation"] |}.

Definition hand_result : json :=
  JObject
    [("imagingType", JString "X-Ray, hand");
     ("organName", JString "Left hand");
     ("findings", JString "No acute fracture.");
     ("professionalDetails",
      JArray [JString "Mild soft tissue swelling"; JString "No dislocation"])].

(** Its JSON text, compact and with white space between the tokens. *)
Definition hand_text : string :=
  ("{" ++ quote_string "imagingType" ++ ":" ++ quote_string "X-Ray, hand" ++ ","
   ++ quote_string "organName" ++ ":" ++ quote_string "Left hand" ++ ","
   ++ quote_string "findings" ++ ":" ++ quote_string "No acute fracture." ++ ","
   ++ quote_string "professionalDetails" ++ ":["
   ++ quote_string "Mild soft tissue swelling" ++ ","
   ++ quote_string "No dislocation" ++ "]}")%string.

Definition hand_text_spaced : string :=
  (" { " ++ quote_string "imagingType" ++ " : " ++ quote_string "X-Ray, hand" ++ " , "
   ++ quote_string "organName" ++ " : " ++ quote_string "Left hand" ++ " , "
   ++ quote_string "findings" ++ " : " ++ quote_string "No acute fracture." ++ " , "
   ++ quote_string "professionalDetails" ++ " : [ "
   ++ quote_string "Mild soft tissue swelling" ++ " , "
   ++ quote_string "No dislocation" ++ " ] } ")%string.

(** The same response without [organName]. *)
Definition no_organ_result : json :=
  JObject
    [("imagingType", JString "X-Ray, hand");
     ("findings", JString "No acute fracture.");
     ("professionalDetails",
      JArray [JString "Mild soft tissue swelling"; JString "No dislocation"])].

Definition no_organ_text : string := JSON_stringify no_organ_result.

Definition no_key : ProcessEnv := {| API_KEY := None |}.

Definition empty_png : File := {| file_type := "image/png"; file_bytes := [] |}.

Definition small_png : File :=
  {| file_type := "image/png";
     file_bytes := [Byte.x89; Byte.x50; Byte.x4e; Byte.x47] |}.

(** The canvas of the camera view gives this URL while it has no pixels. *)
Definition blank_canvas_url : string := "data:,".

(** A data URL without a comma, as some engines report for a file without
    content instead of [readAsDataURL empty_png]. *)
Definition bare_data_url : string := "data:".

(** *** Reading a handler *)

Fixpoint writes_of (effs : list Effect) : list Write :=
  match effs with
  | [] => []
  | Set_ wr :: r => wr :: writes_of r
  | _ :: r => writes_of r
  end.

Fixpoint spawned (effs : list Effect) : list (Async json) :=
  match effs with
  | [] => []
  | Spawn call :: r => call :: spawned r
  | _ :: r => spawned r
  end.

Fixpoint files_read (effs : list Effect) : list File :=
  match effs with
  | [] => []
  | ReadFile f :: r => f :: files_read r
  | _ :: r => files_read r
  end.

Definition apply_writes (ws : list Write) (s : Session) : Session :=
  fold_left (fun s wr => apply_write wr s) ws s.

(** The preview stored for a payload. *)
Definition preview_of (base64 : option string) : string :=
  ("data:image/jpeg;base64," ++ ToString base64)%string.

Definition has_comma (s : string) : bool :=
  existsb (fun c => Ascii.eqb c (chr 44)) (list_ascii_of_string s).

(** *** The handlers that exist *)

(** Every handler run by an event is one of these. *)
Inductive handler_shape (w : World) : list Effect -> Prop :=
| hs_none : handler_shape w []
| hs_go_idle : state (session w) <> IDLE -> handler_shape w [Set_ (setState IDLE)]
| hs_go_camera : state (session w) = IDLE -> handler_shape w [Set_ (setState CAMERA)]
| hs_read (f : File) : state (session w) = IDLE -> handler_shape w [ReadFile f]
| hs_print : handler_shape w [Print]
| hs_start (b : option string) : handler_shape w (startProcessing (env w) b)
| hs_resume (k : nat) (call : Async json) (o : RemoteOutcome) :
    nth_error (inflight w) k = Some call ->
    handler_shape w (startProcessing_resume (settle call o)).

(** The controls that the JSX renders in one state only. *)
Definition gated_by_view (ev : Event) : bool :=
  match ev with
  | ClickHome | ReaderLoaded _ _ | AnalysisCompleted _ _ => false
  | _ => true
  end.

(** *** Invariant of the reachable worlds *)

(** A stored preview is the fixed header followed by a payload, and one is
    stored once an analysis was started; a stored message is the fixed one,
    and one is stored in [ERROR]; every outstanding call is a call of
    [performAIAnalysis]; a mounted component renders. *)
Record Inv (w : World) : Prop := {
  inv_preview_form :
    imagePreview (session w) = None \/
    exists b, imagePreview (session w) = Some (preview_of b);
  inv_preview_set :
    state (session w) = ANALYZING \/ state (session w) = RESULT \/
    state (session w) = ERROR \/ inflight w <> [] ->
    imagePreview (session w) <> None;
  inv_error_set :
    state (session w) = ERROR -> errorMsg (session w) = Some ERROR_MESSAGE;
  inv_error_form :
    errorMsg (session w) = None \/ errorMsg (session w) = Some ERROR_MESSAGE;
  inv_calls :
    Forall (fun c => exists b, c = performAIAnalysis (env w) b) (inflight w);
  inv_renders :
    mounted w = true -> renders (session w) = true
}.

(** *** Worlds of the examples *)

(** An upload of [small_png] has been read and its analysis is
    outstanding. *)
Definition analyzing_world : World :=
  steps (initial_world no_key)
    [ChooseFile (Some small_png); ReaderLoaded 0 (readAsDataURL small_png)].

(** The user went home while that analysis was outstanding. *)
Definition abandoned_world : World := step analyzing_world ClickHome.

(** The analysis of [analyzing_world] returned the well-formed result. *)
Definition result_world : World :=
  step analyzing_world (AnalysisCompleted 0 (Responded (Some hand_text))).

(** A failed analysis after an earlier successful one. *)
Definition failed_after_success_world : World :=
  steps (step result_world ClickNewScan)
    [ChooseFile (Some small_png); ReaderLoaded 0 (readAsDataURL small_png);
     AnalysisCompleted 0 Rejected].

(* ===================================================================== *)
(** ** What the component shows *)
(* ===================================================================== *)

(** The blocks of [<main>], each under its own condition in the JSX. *)
Inductive View : Type :=
| IdleView
| CameraView
| AnalyzingView
| ResultView
| ErrorView.

(** The block rendered for a session.  In [RESULT] with a falsy [result]
    none is: the expression [state === RESULT && result && ...] is then the
    falsy value itself. *)
Definition main_view (s : Session) : option View :=
  match state s with
  | IDLE => Some IdleView
  | CAMERA => Some CameraView
  | ANALYZING => Some AnalyzingView
  | RESULT => if truthy (result s) then Some ResultView else None
  | ERROR => Some ErrorView
  end.


(** Whether [v.professionalDetails] is an array, so that the [map] of the
    result view is the array method. *)
Definition details_is_array (v : json) : bool :=
  match field "professionalDetails" v with
  | Some (JArray _) => true
  | _ => false
  end.

(** *** The schema sent with the request *)

(** A value matches a schema: a string, an array whose elements match, an
    object that has every required property and whose declared properties,
    where present, match. *)
Fixpoint conforms (sch : Schema) (v : json) {struct sch} : bool :=
  match sch with
  | STRING =>
      match v with
      | JString _ => true
      | _ => false
      end
  | ARRAY items =>
      match v with
      | JArray l => forallb (conforms items) l
      | _ => false
      end
  | OBJECT properties required =>
      match v with
      | JObject fields =>
          forallb (fun k => match get_prop k fields with
                            | Some _ => true
                            | None => false
                            end) required &&
          (fix declared (ps : list (string * Schema)) : bool :=
             match ps with
             | [] => true
             | (k, s) :: r =>
                 match get_prop k fields with
                 | Some x => conforms s x
                 | None => true
                 end && declared r
             end) properties
      | _ => false
      end
  end.

(* ===================================================================== *)
(** ** The camera view: [CameraInterface] *)
(* ===================================================================== *)

(** The promise of [getUserMedia]. *)
Inductive MediaRequest : Type := Pending | Granted | Denied.

(** One mounted [CameraInterface] and the closure of its effect: whether it
    is still on screen, its request for the camera, the variable [stream],
    the [srcObject] of its video element, and how many times the cleanup has
    run [getTracks().forEach(t => t.stop())] on the stream.  The effect has
    no dependencies: it runs once when the view is mounted, and its cleanup
    once when the view is unmounted. *)
Record Camera : Type := {
  cam_mounted : bool;
  cam_request : MediaRequest;
  cam_stream : option nat;
  cam_srcObject : option nat;
  cam_stops : nat
}.

(** What [getUserMedia] is asked for. *)
Record VideoConstraints : Type := {
  facingMode : string;
  ideal_width : nat;
  ideal_height : nat
}.

Definition camera_constraints : VideoConstraints :=
  {| facingMode := "environment"; ideal_width := 1920; ideal_height := 1080 |}.

(** The message of the [alert] when the request is refused. *)
Definition CAMERA_ALERT : string :=
  "يرجى تفعيل صلاحيات الكاميرا للمتابعة".

(** Mounting: the effect runs and the request is made. *)
Definition new_camera : Camera :=
  {| cam_mounted := true; cam_request := Pending; cam_stream := None;
     cam_srcObject := None; cam_stops := 0 |}.

(** Unmounting: the cleanup [stream?.getTracks().forEach(t => t.stop())]
    runs with the value [stream] has at that moment, and the video element
    goes. *)
Definition unmount_camera (c : Camera) : Camera :=
  if cam_mounted c then
    {| cam_mounted := false; cam_request := cam_request c;
       cam_stream := cam_stream c; cam_srcObject := None;
       cam_stops := match cam_stream c with
                    | Some _ => S (cam_stops c)
                    | None => cam_stops c
                    end |}
  else c.

(** The [then] callback: [stream = s], and the video element gets the stream
    if it still exists. *)
Definition grant_camera (s : nat) (c : Camera) : Camera :=
  match cam_request c with
  | Pending =>
      {| cam_mounted := cam_mounted c; cam_request := Granted;
         cam_stream := Some s;
         cam_srcObject := if cam_mounted c then Some s else None;
         cam_stops := cam_stops c |}
  | _ => c
  end.

(** The [catch] callback, as far as the camera goes (it also alerts). *)
Definition deny_camera (c : Camera) : Camera :=
  match cam_request c with
  | Pending =>
      {| cam_mounted := cam_mounted c; cam_request := Denied;
         cam_stream := cam_stream c; cam_srcObject := cam_srcObject c;
         cam_stops := cam_stops c |}
  | _ => c
  end.

Definition is_pending (c : Camera) : bool :=
  match cam_request c with
  | Pending => true
  | _ => false
  end.

(** The tracks of the camera's stream are running: a stream was granted and
    the cleanup has not stopped it. *)
Definition stream_live (c : Camera) : bool :=
  match cam_stream c with
  | Some _ => Nat.eqb (cam_stops c) 0
  | None => false
  end.

Fixpoint update_nth {A : Type} (k : nat) (f : A -> A) (l : list A) {struct l}
  : list A :=
  match l with
  | [] => []
  | x :: r =>
      match k with
      | O => f x :: r
      | S k' => x :: update_nth k' f r
      end
  end.

(** [canvas.toDataURL('image/jpeg', 0.8)] after [handleSnap] has sized the
    canvas to the video and drawn it: a canvas without pixels gives the bare
    URL, otherwise the JPEG encoding of the frame as a data URL. *)
Definition canvas_toDataURL (jpeg : option (list Byte.byte)) : string :=
  match jpeg with
  | Some bytes => ("data:image/jpeg;base64," ++ base64_encode bytes)%string
  | None => "data:,"
  end.

(** What the video element can give to the canvas: nothing (its
    [videoWidth] is zero) while it has no [srcObject]; with one, the frame
    the platform has decoded, if any. *)
Definition video_frame (c : Camera) (frame : option (list Byte.byte))
  : option (list Byte.byte) :=
  match cam_srcObject c with
  | Some _ => frame
  | None => None
  end.

(** The application with its camera views, past and present, in the order of
    their mounting, and the alerts shown. *)
Record Stage : Type := {
  app_world : World;
  cameras : list Camera;
  alerts : list string
}.

Definition initial_stage (e : ProcessEnv) : Stage :=
  {| app_world := initial_world e; cameras := []; alerts := [] |}.

(** [state === AppState.CAMERA && <CameraInterface .../>], for a component
    that is still mounted. *)
Definition camera_shown (w : World) : bool :=
  mounted w &&
  match state (session w) with
  | CAMERA => true
  | _ => false
  end.

(** The camera views after a render: the one on screen is unmounted when the
    camera block goes, a new one is mounted when it comes. *)
Definition sync_cameras (was now : bool) (cams : list Camera) : list Camera :=
  if was then (if now then cams else map unmount_camera cams)
  else (if now then cams ++ [new_camera] else cams).

Definition app_transition (st : Stage) (w' : World) : Stage :=
  {| app_world := w';
     cameras := sync_cameras (camera_shown (app_world st)) (camera_shown w') (cameras st);
     alerts := alerts st |}.

Definition mounted_camera (cams : list Camera) : option Camera :=
  find cam_mounted cams.

(** What can happen on the stage: an event of the application other than
    the shutter, a press on the shutter of the camera view (with the frame
    the platform has decoded, if any), and the two ends of a request for the
    camera, addressed by the position of the view that made it. *)
Inductive StageEvent : Type :=
| AppEvent (ev : Event)
| PressShutter (frame : option (list Byte.byte))
| CameraGranted (i : nat) (s : nat)
| CameraDenied (i : nat).

Definition stage_step (st : Stage) (sev : StageEvent) : Stage :=
  match sev with
  | AppEvent ev =>
      match ev with
      | ClickShutter _ => st
      | _ => app_transition st (step (app_world st) ev)
      end
  | PressShutter frame =>
      match mounted_camera (cameras st) with
      | Some c =>
          app_transition st
            (step (app_world st) (ClickShutter (canvas_toDataURL (video_frame c frame))))
      | None => st
      end
  | CameraGranted i s =>
      {| app_world := app_world st;
         cameras := update_nth i (grant_camera s) (cameras st);
         alerts := alerts st |}
  | CameraDenied i =>
      {| app_world := app_world st;
         cameras := update_nth i deny_camera (cameras st);
         alerts := match nth_error (cameras st) i with
                   | Some c => if is_pending c then alerts st ++ [CAMERA_ALERT]
                               else alerts st
                   | None => alerts st
                   end |}
  end.

Definition stage_steps (st : Stage) (sevs : list StageEvent) : Stage :=
  fold_left stage_step sevs st.

(** What holds of each camera view: tracks are stopped at most once and only
    after unmounting, only if a stream was obtained; a pending request has
    given no stream; a video element shows a stream only while mounted. *)
Definition camera_ok (c : Camera) : Prop :=
  (cam_mounted c = true -> cam_stops c = 0) /\
  cam_stops c <= 1 /\
  (cam_stream c = None -> cam_stops c = 0) /\
  (cam_request c = Pending -> cam_stream c = None) /\
  (cam_stream c = None -> cam_srcObject c = None) /\
  (cam_mounted c = false -> cam_srcObject c = None).

(** The invariant of the stages that can be reached: the camera views are
    all unmounted but the last, which is mounted exactly when the camera
    block is shown, and each of them is as [camera_ok] says. *)
Record StageInv (st : Stage) : Prop := {
  si_shape :
    exists n,
      map cam_mounted (cameras st) =
      repeat false n ++ (if camera_shown (app_world st) then [true] else []);
  si_each : Forall camera_ok (cameras st)
}.

(** *** Worlds and stages of the examples, continued *)


(** A file was chosen, then the camera opened before the file was read. *)
Definition camera_with_pending_read : World :=
  steps (initial_world no_key) [ChooseFile (Some small_png); ClickOpenCamera].

(** The camera was opened and closed before the request for it ended. *)
Definition closed_early_stage : Stage :=
  stage_steps (initial_stage no_key)
    [AppEvent ClickOpenCamera; AppEvent ClickCloseCamera].

(* ===================================================================== *)
(** ** Properties *)
(* ===================================================================== *)

(** *** [JSON.parse] always answers *)

Lemma skip_ws_length (s : list ascii) : length (skip_ws s) <= length s.
Proof.
  induction s as [|c s IH]; simpl; [lia|].
  destruct (is_ws c); simpl; lia.
Qed.

Lemma skip_ws_cons_length (s r : list ascii) (c : ascii) :
  skip_ws s = c :: r -> S (length r) <= length s.
Proof.
  intros H. pose proof (skip_ws_length s) as L. rewrite H in L. exact L.
Qed.

Lemma parse_chars_length (s : list ascii) :
  forall m p acc str r,
    parse_chars m p acc s = POk str r -> length r < length s.
Proof.
  induction s as [|c s IH]; intros m p acc str r; simpl; [discriminate|].
  destruct m as [| |k v].
  - destruct (Ascii.eqb c QUOTE).
    + intros [= _ <-]. lia.
    + destruct (Ascii.eqb c BACKSLASH).
      * intros H. apply IH in H. lia.
      * destruct (code c <? 32)%N; [discriminate|].
        intros H. apply IH in H. lia.
  - destruct (code c =? 117)%N.
    + intros H. apply IH in H. lia.
    + destruct (simple_escape c); [|discriminate].
      intros H. apply IH in H. lia.
  - destruct (hex_val c); [|discriminate].
    destruct k.
    + destruct (emit_unit p (v * 16 + n) acc). intros H. apply IH in H. lia.
    + intros H. apply IH in H. lia.
Qed.

Lemma parse_chars_fuel (s : list ascii) :
  forall m p acc, parse_chars m p acc s <> POutOfFuel.
Proof.
  induction s as [|c s IH]; intros m p acc; simpl; [discriminate|].
  destruct m as [| |k v].
  - destruct (Ascii.eqb c QUOTE); [discriminate|].
    destruct (Ascii.eqb c BACKSLASH); [apply IH|].
    destruct (code c <? 32)%N; [discriminate | apply IH].
  - destruct (code c =? 117)%N; [apply IH|].
    destruct (simple_escape c); [apply IH | discriminate].
  - destruct (hex_val c); [|discriminate].
    destruct k; [|apply IH].
    destruct (emit_unit p (v * 16 + n) acc). apply IH.
Qed.

Lemma take_digits_length (s : list ascii) :
  forall acc n v n' r,
    take_digits s acc n = (v, n', r) -> length r <= length s.
Proof.
  induction s as [|c s IH]; intros acc n v n' r; simpl.
  - intros [= _ _ <-]. simpl. lia.
  - destruct (is_digit c).
    + intros H. apply IH in H. lia.
    + intros [= _ _ <-]. simpl. lia.
Qed.

Lemma parse_fraction_length (int : N) (s : list ascii) m n r :
  parse_fraction int s = Some (m, n, r) -> length r <= length s.
Proof.
  unfold parse_fraction. destruct s as [|c s]; [intros [= _ _ <-]; simpl; lia|].
  destruct (code c =? 46)%N.
  - destruct (take_digits s int 0) as [[m' n'] rest] eqn:E.
    destruct (Nat.eqb n' 0); [discriminate|].
    intros [= _ _ <-]. apply take_digits_length in E. simpl. lia.
  - intros [= _ _ <-]. lia.
Qed.

Lemma parse_exponent_length (s : list ascii) e r :
  parse_exponent s = Some (e, r) -> length r <= length s.
Proof.
  unfold parse_exponent. destruct s as [|c s]; [intros [= _ <-]; simpl; lia|].
  destruct ((code c =? 101)%N || (code c =? 69)%N).
  - destruct s as [|d s'].
    + simpl. discriminate.
    + destruct (code d =? 45)%N; [|destruct (code d =? 43)%N].
      * destruct (take_digits s' 0 0) as [[e' n'] rest] eqn:E.
        destruct (Nat.eqb n' 0); [discriminate|].
        intros [= _ <-]. apply take_digits_length in E. simpl. lia.
      * destruct (take_digits s' 0 0) as [[e' n'] rest] eqn:E.
        destruct (Nat.eqb n' 0); [discriminate|].
        intros [= _ <-]. apply take_digits_length in E. simpl. lia.
      * destruct (take_digits (d :: s') 0 0) as [[e' n'] rest] eqn:E.
        destruct (Nat.eqb n' 0); [discriminate|].
        intros [= _ <-]. apply take_digits_length in E. simpl in *. lia.
  - intros [= _ <-]. lia.
Qed.

Lemma take_digits_consumes (c : ascii) (s : list ascii) v n r :
  is_digit c = true ->
  take_digits (c :: s) 0 0 = (v, n, r) -> length r <= length s.
Proof.
  intros Hc. simpl. rewrite Hc. apply take_digits_length.
Qed.

Lemma parse_frac_exp_length (neg : bool) (int : N) (s : list ascii) v r :
  parse_frac_exp neg int s = POk v r -> length r <= length s.
Proof.
  unfold parse_frac_exp.
  destruct (parse_fraction int s) as [[[m fd] s3]|] eqn:F; [|discriminate].
  destruct (parse_exponent s3) as [[e s4]|] eqn:X; [|discriminate].
  intros [= _ <-]. apply parse_fraction_length in F.
  apply parse_exponent_length in X. lia.
Qed.

Lemma parse_unsigned_length (neg : bool) (s : list ascii) v r :
  parse_unsigned neg s = POk v r -> length r < length s.
Proof.
  unfold parse_unsigned. destruct s as [|c s]; [discriminate|].
  destruct (is_digit c) eqn:D; cbn [negb]; [|discriminate].
  destruct (code c =? 48)%N.
  - intros H. apply parse_frac_exp_length in H. simpl. lia.
  - destruct (take_digits (c :: s) 0 0) as [[v' n'] rest] eqn:T.
    intros H. apply parse_frac_exp_length in H.
    apply (take_digits_consumes c s _ _ _ D) in T. simpl. lia.
Qed.

Lemma parse_number_length (s : list ascii) v r :
  parse_number s = POk v r -> length r < length s.
Proof.
  unfold parse_number. destruct s as [|c s]; [discriminate|].
  destruct (code c =? 45)%N; intros H; apply parse_unsigned_length in H;
    simpl in *; lia.
Qed.

Lemma parse_frac_exp_fuel (neg : bool) (int : N) (s : list ascii) :
  parse_frac_exp neg int s <> POutOfFuel.
Proof.
  unfold parse_frac_exp.
  destruct (parse_fraction int s) as [[[m fd] s3]|]; [|discriminate].
  destruct (parse_exponent s3) as [[e s4]|]; discriminate.
Qed.

Lemma parse_unsigned_fuel (neg : bool) (s : list ascii) :
  parse_unsigned neg s <> POutOfFuel.
Proof.
  unfold parse_unsigned. destruct s as [|c s]; [discriminate|].
  destruct (negb (is_digit c)); [discriminate|].
  destruct (code c =? 48)%N; [apply parse_frac_exp_fuel|].
  destruct (take_digits (c :: s) 0 0) as [[v' n'] rest].
  apply parse_frac_exp_fuel.
Qed.

Lemma parse_number_fuel (s : list ascii) : parse_number s <> POutOfFuel.
Proof.
  unfold parse_number. destruct s as [|c s]; [discriminate|].
  destruct (code c =? 45)%N; apply parse_unsigned_fuel.
Qed.

Lemma strip_prefix_length (w s r : list ascii) :
  strip_prefix w s = Some r -> length r + length w = length s.
Proof.
  revert s. induction w as [|a w IH]; intros s; simpl.
  - intros [= <-]. lia.
  - destruct s as [|c s]; [discriminate|].
    destruct (Ascii.eqb a c); [|discriminate].
    intros H. apply IH in H. simpl. lia.
Qed.

Lemma parse_literal_length (w : string) (x : json) (s : list ascii) v r :
  w <> EmptyString ->
  parse_literal w x s = POk v r -> length r < length s.
Proof.
  intros Hw. unfold parse_literal.
  destruct (strip_prefix (list_ascii_of_string w) s) eqn:E; [|discriminate].
  intros [= _ <-]. apply strip_prefix_length in E.
  destruct w; [now contradiction Hw|]. simpl in E. lia.
Qed.

Lemma parse_literal_fuel (w : string) (x : json) (s : list ascii) :
  parse_literal w x s <> POutOfFuel.
Proof.
  unfold parse_literal.
  destruct (strip_prefix (list_ascii_of_string w) s); discriminate.
Qed.

(** The unread input after a value, an element list or a member list is
    strictly shorter than the input. *)
Lemma parse_value_length (fuel : nat) :
  (forall s v r, parse_value fuel s = POk v r -> length r < length s) /\
  (forall s acc v r, parse_elements fuel s acc = POk v r -> length r < length s) /\
  (forall s acc v r, parse_members fuel s acc = POk v r -> length r < length s).
Proof.
  induction fuel as [|fuel (IHv & IHe & IHm)].
  - repeat split; intros; discriminate.
  - split; [|split].
    + intros s v r. cbn [parse_value].
      destruct (skip_ws s) as [|c r0] eqn:W; [discriminate|].
      apply skip_ws_cons_length in W.
      destruct (code c =? 123)%N.
      { destruct (skip_ws r0) as [|d r'] eqn:W2; [discriminate|].
        apply skip_ws_cons_length in W2.
        destruct (code d =? 125)%N.
        - intros [= _ <-]. lia.
        - intros H. apply IHm in H. simpl in H. lia. }
      destruct (code c =? 91)%N.
      { destruct (skip_ws r0) as [|d r'] eqn:W2; [discriminate|].
        apply skip_ws_cons_length in W2.
        destruct (code d =? 93)%N.
        - intros [= _ <-]. lia.
        - intros H. apply IHe in H. simpl in H. lia. }
      destruct (code c =? 34)%N.
      { destruct (parse_chars MPlain None [] r0) as [str rest| |] eqn:C;
          try discriminate.
        intros [= _ <-]. apply parse_chars_length in C. lia. }
      destruct (code c =? 116)%N.
      { intros H. apply parse_literal_length in H; [simpl in H; lia | discriminate]. }
      destruct (code c =? 102)%N.
      { intros H. apply parse_literal_length in H; [simpl in H; lia | discriminate]. }
      destruct (code c =? 110)%N.
      { intros H. apply parse_literal_length in H; [simpl in H; lia | discriminate]. }
      intros H. apply parse_number_length in H. simpl in H. lia.
    + intros s acc v r. cbn [parse_elements].
      destruct (parse_value fuel s) as [x rest| |] eqn:V; try discriminate.
      apply IHv in V.
      destruct (skip_ws rest) as [|c r0] eqn:W; [discriminate|].
      apply skip_ws_cons_length in W.
      destruct (code c =? 44)%N.
      * intros H. apply IHe in H. lia.
      * destruct (code c =? 93)%N; [|discriminate].
        intros [= _ <-]. lia.
    + intros s acc v r. cbn [parse_members].
      destruct (skip_ws s) as [|q r0] eqn:W; [discriminate|].
      apply skip_ws_cons_length in W.
      destruct (negb (code q =? 34)%N); [discriminate|].
      destruct (parse_chars MPlain None [] r0) as [key r1| |] eqn:C;
        try discriminate.
      apply parse_chars_length in C.
      destruct (skip_ws r1) as [|c r2] eqn:W2; [discriminate|].
      apply skip_ws_cons_length in W2.
      destruct (negb (code c =? 58)%N); [discriminate|].
      destruct (parse_value fuel r2) as [x rest| |] eqn:V; try discriminate.
      apply IHv in V.
      destruct (skip_ws rest) as [|d r3] eqn:W3; [discriminate|].
      apply skip_ws_cons_length in W3.
      destruct (code d =? 44)%N.
      * intros H. apply IHm in H. lia.
      * destruct (code d =? 125)%N; [|discriminate].
        intros [= _ <-]. lia.
Qed.

(** The budget is never exhausted when it is at least twice the length of
    the input (plus one for a value, plus two inside an array or object). *)
Lemma parse_value_fuel (fuel : nat) :
  (forall s, 2 * length s + 1 <= fuel -> parse_value fuel s <> POutOfFuel) /\
  (forall s acc, 2 * length s + 2 <= fuel ->
                 parse_elements fuel s acc <> POutOfFuel) /\
  (forall s acc, 2 * length s + 2 <= fuel ->
                 parse_members fuel s acc <> POutOfFuel).
Proof.
  induction fuel as [|fuel (IHv & IHe & IHm)].
  - repeat split; intros; lia.
  - split; [|split].
    + intros s L. cbn [parse_value].
      destruct (skip_ws s) as [|c r0] eqn:W; [discriminate|].
      apply skip_ws_cons_length in W.
      destruct (code c =? 123)%N.
      { destruct (skip_ws r0) as [|d r'] eqn:W2; [discriminate|].
        apply skip_ws_cons_length in W2.
        destruct (code d =? 125)%N; [discriminate|].
        apply IHm. simpl. lia. }
      destruct (code c =? 91)%N.
      { destruct (skip_ws r0) as [|d r'] eqn:W2; [discriminate|].
        apply skip_ws_cons_length in W2.
        destruct (code d =? 93)%N; [discriminate|].
        apply IHe. simpl. lia. }
      destruct (code c =? 34)%N.
      { pose proof (parse_chars_fuel r0 MPlain None []) as C.
        destruct (parse_chars MPlain None [] r0); congruence. }
      destruct (code c =? 116)%N; [apply parse_literal_fuel|].
      destruct (code c =? 102)%N; [apply parse_literal_fuel|].
      destruct (code c =? 110)%N; [apply parse_literal_fuel|].
      apply parse_number_fuel.
    + intros s acc L. cbn [parse_elements].
      pose proof (IHv s ltac:(lia)) as V0.
      destruct (parse_value fuel s) as [x rest| |] eqn:V;
        [|discriminate|congruence].
      apply (proj1 (parse_value_length fuel)) in V.
      destruct (skip_ws rest) as [|c r0] eqn:W; [discriminate|].
      apply skip_ws_cons_length in W.
      destruct (code c =? 44)%N.
      * apply IHe. lia.
      * destruct (code c =? 93)%N; discriminate.
    + intros s acc L. cbn [parse_members].
      destruct (skip_ws s) as [|q r0] eqn:W; [discriminate|].
      apply skip_ws_cons_length in W.
      destruct (negb (code q =? 34)%N); [discriminate|].
      pose proof (parse_chars_fuel r0 MPlain None []) as C0.
      destruct (parse_chars MPlain None [] r0) as [key r1| |] eqn:C;
        [|discriminate|congruence].
      apply parse_chars_length in C.
      destruct (skip_ws r1) as [|c r2] eqn:W2; [discriminate|].
      apply skip_ws_cons_length in W2.
      destruct (negb (code c =? 58)%N); [discriminate|].
      pose proof (IHv r2 ltac:(lia)) as V0.
      destruct (parse_value fuel r2) as [x rest| |] eqn:V;
        [|discriminate|congruence].
      apply (proj1 (parse_value_length fuel)) in V.
      destruct (skip_ws rest) as [|d r3] eqn:W3; [discriminate|].
      apply skip_ws_cons_length in W3.
      destruct (code d =? 44)%N.
      * apply IHm. lia.
      * destruct (code d =? 125)%N; discriminate.
Qed.

(** [JSON_parse] gives its parser enough budget: [None] always stands for a
    [SyntaxError]. *)
Lemma JSON_parse_fuel (text : string) :
  parse_value (parse_fuel (list_ascii_of_string text)) (list_ascii_of_string text)
    <> POutOfFuel.
Proof. apply (proj1 (parse_value_fuel _)). unfold parse_fuel. lia. Qed.

(** *** [JSON.parse] reads back what [JSON.stringify] writes *)

Lemma list_ascii_app (a b : string) :
  list_ascii_of_string (a ++ b) = list_ascii_of_string a ++ list_ascii_of_string b.
Proof.
  induction a as [|c a IH]; [reflexivity|].
  cbn [String.append list_ascii_of_string]. now rewrite IH.
Qed.

(** More budget does not change an answer. *)
Lemma fuel_irrelevant (n : nat) :
  (forall s res, parse_value n s = res -> res <> POutOfFuel ->
                 forall m, n <= m -> parse_value m s = res) /\
  (forall s acc res, parse_elements n s acc = res -> res <> POutOfFuel ->
                     forall m, n <= m -> parse_elements m s acc = res) /\
  (forall s acc res, parse_members n s acc = res -> res <> POutOfFuel ->
                     forall m, n <= m -> parse_members m s acc = res).
Proof.
  induction n as [|n (IHv & IHe & IHm)].
  - repeat split; intros; subst; simpl in *; congruence.
  - split; [|split].
    + intros s res <- Hres m Hm. destruct m as [|m]; [lia|].
      apply le_S_n in Hm. revert Hres. cbn [parse_value].
      destruct (skip_ws s) as [|c r0]; [reflexivity|]. cbv zeta.
      destruct (code c =? 123)%N.
      { destruct (skip_ws r0) as [|d r']; [reflexivity|].
        destruct (code d =? 125)%N; [reflexivity|].
        intros H. now apply IHm. }
      destruct (code c =? 91)%N.
      { destruct (skip_ws r0) as [|d r']; [reflexivity|].
        destruct (code d =? 93)%N; [reflexivity|].
        intros H. now apply IHe. }
      reflexivity.
    + intros s acc res <- Hres m Hm. destruct m as [|m]; [lia|].
      apply le_S_n in Hm. revert Hres. cbn [parse_elements].
      destruct (parse_value n s) as [x rest| |] eqn:V; try congruence.
      * rewrite (IHv s _ V ltac:(discriminate) m Hm).
        destruct (skip_ws rest) as [|c r0]; [reflexivity|].
        destruct (code c =? 44)%N; [|reflexivity].
        intros H. now apply IHe.
      * now rewrite (IHv s _ V ltac:(discriminate) m Hm).
    + intros s acc res <- Hres m Hm. destruct m as [|m]; [lia|].
      apply le_S_n in Hm. revert Hres. cbn [parse_members].
      destruct (skip_ws s) as [|q r0]; [reflexivity|].
      destruct (negb (code q =? 34)%N); [reflexivity|].
      destruct (parse_chars MPlain None [] r0) as [key r1| |]; try reflexivity.
      destruct (skip_ws r1) as [|c r2]; [reflexivity|].
      destruct (negb (code c =? 58)%N); [reflexivity|].
      destruct (parse_value n r2) as [x rest| |] eqn:V; try congruence.
      * rewrite (IHv r2 _ V ltac:(discriminate) m Hm).
        destruct (skip_ws rest) as [|d r3]; [reflexivity|].
        destruct (code d =? 44)%N; [|reflexivity].
        intros H. now apply IHm.
      * now rewrite (IHv r2 _ V ltac:(discriminate) m Hm).
Qed.

#[local] Abbreviation L := list_ascii_of_string.

(** A string literal written by [quote_string] is read back. *)
Lemma parse_chars_escaped (s : string) :
  plain s = true ->
  forall acc rest,
    parse_chars MPlain None acc (L (escape_string s) ++ QUOTE :: rest) =
    POk (string_of_list_ascii (rev acc ++ L s)) rest.
Proof.
  induction s as [|c s IH]; intros Hp acc rest.
  - cbn [escape_string L app parse_chars].
    replace (Ascii.eqb QUOTE QUOTE) with true by reflexivity.
    cbn [flush]. now rewrite app_nil_r.
  - cbn [plain L forallb] in Hp. apply andb_true_iff in Hp as [Hc Hs].
    apply negb_true_iff in Hc.
    cbn [escape_string]. rewrite list_ascii_app. unfold escape_char.
    destruct (Ascii.eqb c QUOTE) eqn:Q.
    + apply Ascii.eqb_eq in Q. subst c.
      cbn [str1 L app parse_chars].
      replace (Ascii.eqb BACKSLASH QUOTE) with false by reflexivity.
      replace (Ascii.eqb BACKSLASH BACKSLASH) with true by reflexivity.
      replace (code QUOTE =? 117)%N with false by reflexivity.
      replace (simple_escape QUOTE) with (Some QUOTE) by reflexivity.
      cbn [flush]. rewrite (IH Hs). cbn [rev]. now rewrite <- app_assoc.
    + destruct (Ascii.eqb c BACKSLASH) eqn:B.
      * apply Ascii.eqb_eq in B. subst c.
        cbn [str1 L app parse_chars].
        replace (Ascii.eqb BACKSLASH QUOTE) with false by reflexivity.
        replace (Ascii.eqb BACKSLASH BACKSLASH) with true by reflexivity.
        replace (code BACKSLASH =? 117)%N with false by reflexivity.
        replace (simple_escape BACKSLASH) with (Some BACKSLASH) by reflexivity.
        cbn [flush]. rewrite (IH Hs). cbn [rev]. now rewrite <- app_assoc.
      * cbn [str1 L app parse_chars]. rewrite Q, B, Hc.
        cbn [flush]. rewrite (IH Hs). cbn [rev]. now rewrite <- app_assoc.
Qed.

Lemma L_quote_string (s : string) (rest : list ascii) :
  L (quote_string s) ++ rest = QUOTE :: L (escape_string s) ++ QUOTE :: rest.
Proof.
  unfold quote_string. rewrite !list_ascii_app. cbn [str1 L app].
  now rewrite <- app_assoc.
Qed.

Lemma skip_ws_not_ws (c : ascii) (r : list ascii) :
  is_ws c = false -> skip_ws (c :: r) = c :: r.
Proof. intros H. cbn [skip_ws]. now rewrite H. Qed.

Lemma parse_value_quoted (n : nat) (s : string) (rest : list ascii) :
  plain s = true ->
  parse_value (S n) (L (quote_string s) ++ rest) = POk (JString s) rest.
Proof.
  intros Hp. rewrite L_quote_string. cbn [parse_value].
  rewrite skip_ws_not_ws by reflexivity. cbv zeta.
  replace (code QUOTE =? 123)%N with false by reflexivity.
  replace (code QUOTE =? 91)%N with false by reflexivity.
  replace (code QUOTE =? 34)%N with true by reflexivity.
  rewrite (parse_chars_escaped s Hp). cbn [rev app].
  now rewrite string_of_list_ascii_of_string.
Qed.

Lemma parse_elements_eq (n : nat) (s : list ascii) (acc : list json) :
  parse_elements (S n) s acc =
  match parse_value n s with
  | POk v rest =>
      match skip_ws rest with
      | c :: r =>
          if (code c =? 44)%N then parse_elements n r (v :: acc)
          else if (code c =? 93)%N then POk (JArray (rev (v :: acc))) r
          else PSyntaxError
      | [] => PSyntaxError
      end
  | PSyntaxError => PSyntaxError
  | POutOfFuel => POutOfFuel
  end.
Proof. reflexivity. Qed.

Lemma intersperse_cons2 (sep x y : string) (r : list string) :
  intersperse sep (x :: y :: r) = (x ++ sep ++ intersperse sep (y :: r))%string.
Proof. reflexivity. Qed.

Lemma parse_elements_strings (ds : list string) :
  ds <> [] -> forallb plain ds = true ->
  forall n acc rest,
    length ds <= n ->
    parse_elements (S n)
      (L (intersperse "," (map quote_string ds)) ++ "]"%char :: rest) acc =
    POk (JArray (rev acc ++ map JString ds)) rest.
Proof.
  induction ds as [|d ds IH]; [congruence|]. intros _ Hp n acc rest Hn.
  cbn [forallb] in Hp. apply andb_true_iff in Hp as [Hd Hds].
  destruct n as [|n]; [simpl in Hn; lia|].
  destruct ds as [|d2 ds].
  - cbn [map intersperse]. rewrite parse_elements_eq.
    rewrite (parse_value_quoted n d _ Hd).
    rewrite skip_ws_not_ws by reflexivity.
    replace (code "]"%char =? 44)%N with false by reflexivity.
    replace (code "]"%char =? 93)%N with true by reflexivity.
    reflexivity.
  - change (map quote_string (d :: d2 :: ds))
      with (quote_string d :: quote_string d2 :: map quote_string ds).
    rewrite intersperse_cons2.
    rewrite !list_ascii_app, <- !app_assoc.
    change (L ",") with [","%char]. cbn [app].
    rewrite parse_elements_eq.
    rewrite (parse_value_quoted n d _ Hd).
    rewrite skip_ws_not_ws by reflexivity.
    replace (code ","%char =? 44)%N with true by reflexivity.
    change (quote_string d2 :: map quote_string ds)
      with (map quote_string (d2 :: ds)).
    rewrite IH; [|discriminate|assumption|simpl in *; lia].
    cbn [rev map]. now rewrite <- app_assoc.
Qed.

Lemma stringify_strings (ds : list string) :
  map JSON_stringify (map JString ds) = map quote_string ds.
Proof. rewrite map_map. reflexivity. Qed.

Lemma parse_value_string_array (ds : list string) (n : nat) (rest : list ascii) :
  forallb plain ds = true ->
  length ds < n ->
  parse_value (S n) (L (JSON_stringify (JArray (map JString ds))) ++ rest) =
  POk (JArray (map JString ds)) rest.
Proof.
  intros Hp Hn. cbn [JSON_stringify]. rewrite stringify_strings.
  rewrite !list_ascii_app, <- !app_assoc. cbn [L app].
  cbn [parse_value]. rewrite skip_ws_not_ws by reflexivity. cbv zeta.
  replace (code "["%char =? 123)%N with false by reflexivity.
  replace (code "["%char =? 91)%N with true by reflexivity.
  destruct ds as [|d ds].
  - reflexivity.
  - assert (E : L (intersperse "," (map quote_string (d :: ds))) ++ "]"%char :: rest
                = QUOTE :: tl (L (intersperse "," (map quote_string (d :: ds))) ++ "]"%char :: rest)).
    { cbn [map intersperse]. destruct (map quote_string ds); reflexivity. }
    rewrite E. rewrite skip_ws_not_ws by reflexivity.
    replace (code QUOTE =? 93)%N with false by reflexivity.
    rewrite <- E.
    destruct n as [|n]; [lia|].
    apply (parse_elements_strings (d :: ds)); [discriminate|assumption|simpl in *; lia].
Qed.

Lemma parse_value_any_fuel (n m : nat) (s : list ascii) (v : json) (r : list ascii) :
  parse_value n s = POk v r ->
  parse_value m s <> POutOfFuel ->
  parse_value m s = POk v r.
Proof.
  intros Hn Hm. destruct (Nat.le_ge_cases n m) as [L1|L1].
  - apply (proj1 (fuel_irrelevant n) s _ Hn); [discriminate | exact L1].
  - rewrite <- Hn. symmetry.
    apply (proj1 (fuel_irrelevant m) s _ eq_refl Hm n L1).
Qed.

Lemma parse_value_object_start (n : nat) (key : string) (X : list ascii) :
  parse_value (S n) ("{"%char :: L (quote_string key) ++ X) =
  parse_members n (L (quote_string key) ++ X) [].
Proof.
  rewrite L_quote_string. cbn [parse_value].
  rewrite !skip_ws_not_ws by reflexivity. reflexivity.
Qed.

Lemma parse_members_eq (n : nat) (s : list ascii) (acc : list (string * json)) :
  parse_members (S n) s acc =
  match skip_ws s with
  | q :: r0 =>
      if negb (code q =? 34)%N then PSyntaxError
      else
        match parse_chars MPlain None [] r0 with
        | POk key r1 =>
            match skip_ws r1 with
            | c :: r2 =>
                if negb (code c =? 58)%N then PSyntaxError
                else
                  match parse_value n r2 with
                  | POk v rest =>
                      match skip_ws rest with
                      | d :: r =>
                          if (code d =? 44)%N then
                            parse_members n r ((key, v) :: acc)
                          else if (code d =? 125)%N then
                            POk (build_object (rev ((key, v) :: acc))) r
                          else PSyntaxError
                      | [] => PSyntaxError
                      end
                  | PSyntaxError => PSyntaxError
                  | POutOfFuel => POutOfFuel
                  end
            | [] => PSyntaxError
            end
        | PSyntaxError => PSyntaxError
        | POutOfFuel => POutOfFuel
        end
  | [] => PSyntaxError
  end.
Proof. reflexivity. Qed.

Lemma parse_members_comma (n : nat) (key : string) (vtext : list ascii) (v : json)
  (acc : list (string * json)) (rest : list ascii) :
  plain key = true ->
  parse_value n (vtext ++ ","%char :: rest) = POk v (","%char :: rest) ->
  parse_members (S n) (L (quote_string key) ++ ":"%char :: vtext ++ ","%char :: rest) acc =
  parse_members n rest ((key, v) :: acc).
Proof.
  intros Hk Hv. rewrite parse_members_eq, L_quote_string.
  rewrite skip_ws_not_ws by reflexivity.
  replace (negb (code QUOTE =? 34)%N) with false by reflexivity.
  rewrite (parse_chars_escaped key Hk). cbn [rev app].
  rewrite string_of_list_ascii_of_string.
  rewrite skip_ws_not_ws by reflexivity.
  replace (negb (code ":"%char =? 58)%N) with false by reflexivity.
  rewrite Hv. rewrite skip_ws_not_ws by reflexivity. reflexivity.
Qed.

Lemma parse_members_brace (n : nat) (key : string) (vtext : list ascii) (v : json)
  (acc : list (string * json)) (rest : list ascii) :
  plain key = true ->
  parse_value n (vtext ++ "}"%char :: rest) = POk v ("}"%char :: rest) ->
  parse_members (S n) (L (quote_string key) ++ ":"%char :: vtext ++ "}"%char :: rest) acc =
  POk (build_object (rev ((key, v) :: acc))) rest.
Proof.
  intros Hk Hv. rewrite parse_members_eq, L_quote_string.
  rewrite skip_ws_not_ws by reflexivity.
  replace (negb (code QUOTE =? 34)%N) with false by reflexivity.
  rewrite (parse_chars_escaped key Hk). cbn [rev app].
  rewrite string_of_list_ascii_of_string.
  rewrite skip_ws_not_ws by reflexivity.
  replace (negb (code ":"%char =? 58)%N) with false by reflexivity.
  rewrite Hv. rewrite skip_ws_not_ws by reflexivity. reflexivity.
Qed.

Lemma L_stringify_result (r : AnalysisResult) :
  L (JSON_stringify (to_json r)) =
  "{"%char ::
    L (quote_string "imagingType") ++ ":"%char ::
    L (quote_string (imagingType r)) ++ ","%char ::
    L (quote_string "organName") ++ ":"%char ::
    L (quote_string (organName r)) ++ ","%char ::
    L (quote_string "findings") ++ ":"%char ::
    L (quote_string (findings r)) ++ ","%char ::
    L (quote_string "professionalDetails") ++ ":"%char ::
    L (JSON_stringify (JArray (map JString (professionalDetails r)))) ++ "}"%char :: [].
Proof.
  unfold to_json.
  change (JSON_stringify (JObject ?p)) with
    ("{" ++ intersperse ","
              (map (fun kv => quote_string (fst kv) ++ ":" ++ JSON_stringify (snd kv))
                   p) ++ "}")%string.
  cbn [map fst snd]. rewrite !intersperse_cons2. cbn [intersperse].
  change (JSON_stringify (JString ?s)) with (quote_string s).
  rewrite !list_ascii_app, <- !app_assoc.
  reflexivity.
Qed.

(** Every result of the declared shape, serialised, is parsed back to
    itself: the four fields with their values, the details in order. *)
Lemma well_formed_round_trip (r : AnalysisResult) :
  plain_result r = true ->
  JSON_parse (JSON_stringify (to_json r)) = Some (to_json r).
Proof.
  intros Hp. unfold plain_result in Hp.
  apply andb_true_iff in Hp as [Hp Hd].
  apply andb_true_iff in Hp as [Hp H3].
  apply andb_true_iff in Hp as [H1 H2].
  unfold JSON_parse.
  rewrite (parse_value_any_fuel (7 + length (professionalDetails r)) _
             (L (JSON_stringify (to_json r))) (to_json r) []).
  - reflexivity.
  - rewrite L_stringify_result.
    change (7 + length (professionalDetails r))
      with (S (S (S (S (S (S (S (length (professionalDetails r))))))))).
    rewrite parse_value_object_start.
    rewrite parse_members_comma with (v := JString (imagingType r));
      [|reflexivity|now apply parse_value_quoted].
    rewrite parse_members_comma with (v := JString (organName r));
      [|reflexivity|now apply parse_value_quoted].
    rewrite parse_members_comma with (v := JString (findings r));
      [|reflexivity|now apply parse_value_quoted].
    rewrite parse_members_brace
      with (v := JArray (map JString (professionalDetails r)));
      [reflexivity|reflexivity|].
    apply parse_value_string_array; [assumption|lia].
  - apply JSON_parse_fuel.
Qed.

(** *** Effects of a handler on the world *)

Lemma session_run (effs : list Effect) (w : World) :
  session (run effs w) = apply_writes (writes_of effs) (session w).
Proof.
  revert w. induction effs as [|e effs IH]; intros w; [reflexivity|].
  change (run (e :: effs) w) with (run effs (exec e w)).
  rewrite IH. destruct e; reflexivity.
Qed.

Lemma inflight_run (effs : list Effect) (w : World) :
  inflight (run effs w) = inflight w ++ spawned effs.
Proof.
  revert w. induction effs as [|e effs IH]; intros w.
  - simpl. now rewrite app_nil_r.
  - change (run (e :: effs) w) with (run effs (exec e w)).
    rewrite IH. destruct e; simpl; try reflexivity.
    now rewrite <- app_assoc.
Qed.

Lemma readers_run (effs : list Effect) (w : World) :
  readers (run effs w) = readers w ++ files_read effs.
Proof.
  revert w. induction effs as [|e effs IH]; intros w.
  - simpl. now rewrite app_nil_r.
  - change (run (e :: effs) w) with (run effs (exec e w)).
    rewrite IH. destruct e; simpl; try reflexivity.
    now rewrite <- app_assoc.
Qed.

Lemma env_run (effs : list Effect) (w : World) : env (run effs w) = env w.
Proof.
  revert w. induction effs as [|e effs IH]; intros w; [reflexivity|].
  change (run (e :: effs) w) with (run effs (exec e w)).
  rewrite IH. destruct e; reflexivity.
Qed.

Lemma mounted_run (effs : list Effect) (w : World) :
  mounted (run effs w) = mounted w.
Proof.
  revert w. induction effs as [|e effs IH]; intros w; [reflexivity|].
  change (run (e :: effs) w) with (run effs (exec e w)).
  rewrite IH. destruct e; reflexivity.
Qed.

Lemma session_rerender (w : World) : session (rerender w) = session w.
Proof. unfold rerender. destruct (renders (session w)); reflexivity. Qed.

Lemma inflight_rerender (w : World) : inflight (rerender w) = inflight w.
Proof. unfold rerender. destruct (renders (session w)); reflexivity. Qed.

Lemma readers_rerender (w : World) : readers (rerender w) = readers w.
Proof. unfold rerender. destruct (renders (session w)); reflexivity. Qed.

Lemma env_rerender (w : World) : env (rerender w) = env w.
Proof. unfold rerender. destruct (renders (session w)); reflexivity. Qed.

Lemma session_commit (effs : list Effect) (w : World) :
  session (commit effs w) = apply_writes (writes_of effs) (session w).
Proof.
  unfold commit. destruct (existsb is_write effs).
  - rewrite session_rerender. apply session_run.
  - apply session_run.
Qed.

Lemma inflight_commit (effs : list Effect) (w : World) :
  inflight (commit effs w) = inflight w ++ spawned effs.
Proof.
  unfold commit. destruct (existsb is_write effs).
  - rewrite inflight_rerender. apply inflight_run.
  - apply inflight_run.
Qed.

Lemma readers_commit (effs : list Effect) (w : World) :
  readers (commit effs w) = readers w ++ files_read effs.
Proof.
  unfold commit. destruct (existsb is_write effs).
  - rewrite readers_rerender. apply readers_run.
  - apply readers_run.
Qed.

Lemma env_commit (effs : list Effect) (w : World) : env (commit effs w) = env w.
Proof.
  unfold commit. destruct (existsb is_write effs).
  - rewrite env_rerender. apply env_run.
  - apply env_run.
Qed.

(** What one event does to the session: the writes of its handler, in
    order. *)
Lemma session_step (w : World) (ev : Event) :
  mounted w = true ->
  session (step w ev) = apply_writes (writes_of (handler w ev)) (session w).
Proof.
  intros Hm. unfold step. rewrite Hm, session_commit.
  destruct ev; reflexivity.
Qed.

Lemma step_unmounted (w : World) (ev : Event) :
  mounted w = false -> step w ev = w.
Proof. intros Hm. unfold step. now rewrite Hm. Qed.

Lemma env_step (w : World) (ev : Event) : env (step w ev) = env w.
Proof.
  unfold step. destruct (mounted w); [|reflexivity].
  rewrite env_commit. destruct ev; reflexivity.
Qed.

Lemma steps_snoc (w : World) (evs : list Event) (ev : Event) :
  steps w (evs ++ [ev]) = step (steps w evs) ev.
Proof. unfold steps. now rewrite fold_left_app. Qed.

Lemma env_steps (w : World) (evs : list Event) : env (steps w evs) = env w.
Proof.
  induction evs as [|ev evs IH] using rev_ind; [reflexivity|].
  now rewrite steps_snoc, env_step.
Qed.

Lemma reachable_step (w : World) (ev : Event) :
  reachable w -> reachable (step w ev).
Proof.
  intros (e & evs & ->). exists e, (evs ++ [ev]). now rewrite steps_snoc.
Qed.

(** The completion of an outstanding call, whatever the state: a return
    stores the value and shows the result, a throw stores the fixed message
    and shows the error. *)
Lemma completion_applied (w : World) (k : nat) (call : Async json) (o : RemoteOutcome) :
  mounted w = true ->
  nth_error (inflight w) k = Some call ->
  session (step w (AnalysisCompleted k o)) =
    match settle call o with
    | Returned data =>
        {| state := RESULT; result := data;
           imagePreview := imagePreview (session w);
           errorMsg := errorMsg (session w) |}
    | Threw =>
        {| state := ERROR; result := result (session w);
           imagePreview := imagePreview (session w);
           errorMsg := Some ERROR_MESSAGE |}
    end.
Proof.
  intros Hm Hk. rewrite session_step by assumption.
  simpl. rewrite Hk. destruct (settle call o); reflexivity.
Qed.

Lemma completion_consumed (w : World) (k : nat) (o : RemoteOutcome) :
  mounted w = true ->
  inflight (step w (AnalysisCompleted k o)) = remove_nth k (inflight w).
Proof.
  intros Hm. unfold step. rewrite Hm, inflight_commit. simpl.
  destruct (nth_error (inflight w) k) as [call|]; simpl.
  - destruct (settle call o); simpl; now rewrite app_nil_r.
  - now rewrite app_nil_r.
Qed.

Ltac shape :=
  first
    [ apply hs_none
    | apply hs_print
    | apply hs_start
    | apply hs_go_camera; assumption
    | apply hs_read; assumption
    | apply hs_go_idle; congruence
    | eapply hs_resume; eassumption ].

Lemma handler_has_shape (w : World) (ev : Event) :
  handler_shape w (handler w ev).
Proof.
  destruct ev as [|file|k| |url| |k o| | |]; simpl.
  - destruct (state (session w)) eqn:E; shape.
  - destruct (state (session w)) eqn:E; try shape.
    destruct file as [f|]; simpl; shape.
  - destruct (nth_error (readers w) k); shape.
  - destruct (state (session w)) eqn:E; shape.
  - destruct (state (session w)); shape.
  - destruct (state (session w)) eqn:E; shape.
  - destruct (nth_error (inflight w) k) eqn:E; shape.
  - destruct (state (session w)) eqn:E; try shape.
    destruct (truthy (result (session w))); shape.
  - destruct (state (session w)); try shape.
    destruct (truthy (result (session w))); shape.
  - destruct (state (session w)) eqn:E; shape.
Qed.

Lemma consume_session (w : World) (ev : Event) : session (consume w ev) = session w.
Proof. destruct ev; reflexivity. Qed.

Lemma consume_env (w : World) (ev : Event) : env (consume w ev) = env w.
Proof. destruct ev; reflexivity. Qed.

Lemma consume_mounted (w : World) (ev : Event) : mounted (consume w ev) = mounted w.
Proof. destruct ev; reflexivity. Qed.

Lemma Forall_remove_nth {A : Type} (P : A -> Prop) (k : nat) (l : list A) :
  Forall P l -> Forall P (remove_nth k l).
Proof.
  intros H. revert k. induction H as [|x l Hx Hl IH]; intros k; simpl.
  - constructor.
  - destruct k; [assumption | constructor; auto].
Qed.

Lemma remove_nth_nonempty {A : Type} (k : nat) (l : list A) :
  remove_nth k l <> [] -> l <> [].
Proof. destruct l; simpl; [tauto | discriminate]. Qed.

(** *** The invariant holds in every reachable world *)

Lemma Inv_initial (e : ProcessEnv) : Inv (initial_world e).
Proof.
  constructor; simpl; auto; try discriminate.
  intros [H|[H|[H|H]]]; try discriminate. now contradiction H.
Qed.

Lemma Inv_consume (w : World) (ev : Event) : Inv w -> Inv (consume w ev).
Proof.
  intros [H1 H2 H3 H4 H5 H6].
  constructor; rewrite ?consume_session, ?consume_env, ?consume_mounted; auto.
  - intros [H|[H|[H|H]]]; auto.
    apply H2. do 3 right.
    destruct ev; simpl in H; auto. now apply remove_nth_nonempty in H.
  - destruct ev; simpl; auto. now apply Forall_remove_nth.
Qed.

Lemma no_write_no_writes (effs : list Effect) :
  existsb is_write effs = false -> writes_of effs = [].
Proof.
  induction effs as [|e effs IH]; [reflexivity|].
  destruct e; simpl; auto; discriminate.
Qed.

Lemma commit_renders (effs : list Effect) (w : World) :
  (mounted w = true -> renders (session w) = true) ->
  mounted (commit effs w) = true -> renders (session (commit effs w)) = true.
Proof.
  intros Hw. unfold commit. destruct (existsb is_write effs) eqn:E.
  - unfold rerender. destruct (renders (session (run effs w))) eqn:R.
    + intros _. exact R.
    + simpl. discriminate.
  - rewrite mounted_run, session_run, (no_write_no_writes _ E). exact Hw.
Qed.

Lemma nth_error_nonempty {A : Type} (k : nat) (l : list A) (x : A) :
  nth_error l k = Some x -> l <> [].
Proof. destruct l; [destruct k; discriminate | discriminate]. Qed.

Lemma Inv_commit (w w' : World) (effs : list Effect) :
  Inv w -> Inv w' -> session w' = session w -> env w' = env w ->
  handler_shape w effs -> Inv (commit effs w').
Proof.
  intros Hw [H1 H2 H3 H4 H5 H6] Hs He Hshape.
  assert (P : inflight w' <> [] -> imagePreview (session w') <> None)
    by (intros; apply H2; auto 6).
  constructor; [ | | | | | now apply commit_renders ];
    rewrite ?session_commit, ?inflight_commit, ?env_commit.
  - destruct Hshape; simpl; auto.
    + right. now exists b.
    + destruct (settle call o); simpl; auto.
  - destruct Hshape; simpl; rewrite ?app_nil_r; auto.
    + intros [H'|[H'|[H'|H']]]; try discriminate; auto.
    + intros [H'|[H'|[H'|H']]]; try discriminate; auto.
    + discriminate.
    + intros _.
      assert (Q : imagePreview (session w') <> None).
      { rewrite Hs. apply (inv_preview_set w Hw). do 3 right.
        eapply nth_error_nonempty; eassumption. }
      destruct (settle call o); exact Q.
  - destruct Hshape; simpl; auto; try discriminate.
    destruct (settle call o); simpl; auto; discriminate.
  - destruct Hshape; simpl; auto.
    destruct (settle call o); simpl; auto.
  - destruct Hshape; simpl; rewrite ?app_nil_r; auto.
    + apply Forall_app. split; [assumption|].
      constructor; [|constructor]. exists b. now rewrite He.
    + destruct (settle call o); simpl; rewrite ?app_nil_r; auto.
Qed.

Lemma Inv_step (w : World) (ev : Event) : Inv w -> Inv (step w ev).
Proof.
  intros Hw. unfold step. destruct (mounted w); [|assumption].
  apply Inv_commit with (w := w); auto using Inv_consume, consume_session,
    consume_env, handler_has_shape.
Qed.

Lemma Inv_reachable (w : World) : reachable w -> Inv w.
Proof.
  intros (e & evs & ->).
  induction evs as [|ev evs IH] using rev_ind.
  - apply Inv_initial.
  - rewrite steps_snoc. now apply Inv_step.
Qed.

(** *** Data URLs *)

Lemma string_app_assoc (a b c : string) :
  ((a ++ b) ++ c = a ++ (b ++ c))%string.
Proof.
  induction a as [|x a IH]; [reflexivity|].
  cbn [String.append]. now rewrite IH.
Qed.

Lemma has_comma_cons (c : ascii) (s : string) :
  has_comma (String c s) = Ascii.eqb c (chr 44) || has_comma s.
Proof. reflexivity. Qed.

Lemma has_comma_app (a b : string) :
  has_comma (a ++ b) = has_comma a || has_comma b.
Proof.
  induction a as [|c a IH]; [reflexivity|].
  cbn [String.append]. rewrite !has_comma_cons, IH. now rewrite orb_assoc.
Qed.

Lemma split_on_no_comma (s : string) :
  has_comma s = false -> split_on (chr 44) s = [s].
Proof.
  induction s as [|c s IH]; [reflexivity|].
  rewrite has_comma_cons. intros H. apply orb_false_iff in H as [Hc Hs].
  cbn [split_on]. rewrite Hc, (IH Hs). reflexivity.
Qed.

Lemma split_on_comma_app (a b : string) :
  has_comma a = false ->
  split_on (chr 44) (a ++ String (chr 44) b) = a :: split_on (chr 44) b.
Proof.
  induction a as [|c a IH]; intros H.
  - simpl. reflexivity.
  - rewrite has_comma_cons in H. apply orb_false_iff in H as [Hc Ha].
    cbn [String.append]. cbn [split_on]. rewrite Hc.
    cbn [String.append] in IH. rewrite (IH Ha). reflexivity.
Qed.

Lemma list_ind3 {A : Type} (P : list A -> Prop) :
  P [] -> (forall a, P [a]) -> (forall a b, P [a; b]) ->
  (forall a b c r, P r -> P (a :: b :: c :: r)) ->
  forall l, P l.
Proof.
  intros H0 H1 H2 H3.
  assert (H : forall n l, length l <= n -> P l).
  { induction n as [|n IH]; intros l Hl.
    - destruct l; [exact H0 | simpl in Hl; lia].
    - destruct l as [|a [|b [|c r]]]; auto.
      apply H3. apply IH. simpl in Hl. lia. }
  intros l. now apply (H (length l)).
Qed.

Lemma get_In (k : nat) (s : string) (c : ascii) :
  String.get k s = Some c -> In c (list_ascii_of_string s).
Proof.
  revert k. induction s as [|d s IH]; intros k; [discriminate|].
  destruct k; simpl.
  - intros [= ->]. now left.
  - intros H. right. eauto.
Qed.

Lemma base64_digit_not_comma (n : N) :
  Ascii.eqb (base64_digit n) (chr 44) = false.
Proof.
  unfold base64_digit.
  destruct (String.get (N.to_nat n) base64_alphabet) as [c|] eqn:E; [|reflexivity].
  apply get_In in E.
  assert (A : forallb (fun c => negb (Ascii.eqb c (chr 44)))
                (list_ascii_of_string base64_alphabet) = true) by reflexivity.
  rewrite forallb_forall in A. specialize (A c E).
  now apply negb_true_iff in A.
Qed.

Lemma base64_no_comma (bs : list Byte.byte) :
  has_comma (base64_encode bs) = false.
Proof.
  induction bs as [|a|a b|a b c r IH] using list_ind3;
    cbn [base64_encode]; rewrite ?has_comma_cons, ?base64_digit_not_comma;
    auto.
Qed.

(** The payload that the upload path extracts is the base64 text of the
    file content, whatever the declared type (if it has no comma). *)
Lemma payload_of_readAsDataURL (f : File) :
  has_comma (file_type f) = false ->
  payload_of (readAsDataURL f) = Some (base64_encode (file_bytes f)).
Proof.
  intros H. unfold payload_of, readAsDataURL.
  replace ("data:" ++ file_type f ++ ";base64," ++ base64_encode (file_bytes f))%string
    with (("data:" ++ file_type f ++ ";base64") ++
          String (chr 44) (base64_encode (file_bytes f)))%string.
  - rewrite split_on_comma_app.
    + rewrite split_on_no_comma by apply base64_no_comma. reflexivity.
    + rewrite !has_comma_app, H. reflexivity.
  - rewrite !string_app_assoc. reflexivity.
Qed.

(** *** The analysis call *)

(** When [performAIAnalysis] throws: the call was rejected, or the text of
    the response is not JSON. *)
Lemma analysis_throws_iff (e : ProcessEnv) (b : option string) (o : RemoteOutcome) :
  settle (performAIAnalysis e b) o = Threw <->
  o = Rejected \/
  exists t, o = Responded t /\ JSON_parse (ToString t) = None.
Proof.
  simpl. split.
  - destruct o as [|t]; [now left|].
    destruct (JSON_parse (ToString t)) eqn:E; [discriminate|].
    intros _. right. now exists t.
  - intros [->|(t & -> & E)]; [reflexivity|]. now rewrite E.
Qed.

Lemma analysis_returns (e : ProcessEnv) (b t : option string) (v : json) :
  JSON_parse (ToString t) = Some v ->
  settle (performAIAnalysis e b) (Responded t) = Returned v.
Proof. intros E. simpl. now rewrite E. Qed.

(** C8. For the well-formed response of the specification, given as its
    compact JSON text or with white space between the tokens,
    [performAIAnalysis] returns exactly that structure, and its
    [professionalDetails] are the two strings in their original order; the
    completion stores that structure as [result].  The same holds for the
    serialisation of every result of the declared shape. *)
Theorem C8_hand_result_round_trip (e : ProcessEnv) (b : option string) :
  settle (performAIAnalysis e b) (Responded (Some hand_text)) = Returned hand_result /\
  settle (performAIAnalysis e b) (Responded (Some hand_text_spaced)) = Returned hand_result /\
  hand_result = to_json hand /\
  hand_text = JSON_stringify hand_result /\
  field "professionalDetails" hand_result =
    Some (JArray [JString "Mild soft tissue swelling"; JString "No dislocation"]) /\
  result (session result_world) = hand_result /\
  (forall r, plain_result r = true ->
     settle (performAIAnalysis e b) (Responded (Some (JSON_stringify (to_json r))))
       = Returned (to_json r) /\
     field "professionalDetails" (to_json r)
       = Some (JArray (map JString (professionalDetails r)))).
Proof.
  split; [|split; [|split; [|split; [|split; [|split]]]]].
  - apply analysis_returns. vm_compute. reflexivity.
  - apply analysis_returns. vm_compute. reflexivity.
  - reflexivity.
  - vm_compute. reflexivity.
  - reflexivity.
  - vm_compute. reflexivity.
  - intros r Hr. split; [|reflexivity].
    apply analysis_returns. now apply well_formed_round_trip.
Qed.

(** C1 (as the code behaves). For every remote response whose payload is
    valid JSON and has no [organName], [performAIAnalysis] returns the parsed
    value as it is, and the completion moves the session to [RESULT] with
    that value stored and no error message written.  (The hypothesis on
    [organName] is not used: no field is ever checked.) *)
Theorem C1_missing_field_is_returned (w : World) (k : nat) (b t : option string)
  (v : json) :
  mounted w = true ->
  nth_error (inflight w) k = Some (performAIAnalysis (env w) b) ->
  JSON_parse (ToString t) = Some v ->
  field "organName" v = None ->
  settle (performAIAnalysis (env w) b) (Responded t) = Returned v /\
  state (session (step w (AnalysisCompleted k (Responded t)))) = RESULT /\
  result (session (step w (AnalysisCompleted k (Responded t)))) = v /\
  errorMsg (session (step w (AnalysisCompleted k (Responded t)))) =
    errorMsg (session w).
Proof.
  intros Hm Hk Hv _.
  pose proof (analysis_returns (env w) b t v Hv) as Hr.
  split; [exact Hr|].
  rewrite (completion_applied w k _ (Responded t) Hm Hk), Hr.
  simpl. auto.
Qed.

Lemma C1_missing_field_is_returned_witness :
  settle (performAIAnalysis (env analyzing_world) (Some "iVBORw=="))
    (Responded (Some no_organ_text)) = Returned no_organ_result /\
  state (session (step analyzing_world
           (AnalysisCompleted 0 (Responded (Some no_organ_text))))) = RESULT /\
  result (session (step analyzing_world
            (AnalysisCompleted 0 (Responded (Some no_organ_text))))) = no_organ_result /\
  errorMsg (session (step analyzing_world
              (AnalysisCompleted 0 (Responded (Some no_organ_text))))) =
    errorMsg (session analyzing_world).
Proof.
  apply (C1_missing_field_is_returned analyzing_world 0 (Some "iVBORw==")
           (Some no_organ_text) no_organ_result).
  - reflexivity.
  - reflexivity.
  - vm_compute. reflexivity.
  - reflexivity.
Defined.

(** C1 fails as stated: the response without [organName] is valid JSON, the
    call returns it instead of failing, and the session shows the result
    with no error detail. *)
Lemma C1_counterexample :
  JSON_parse no_organ_text = Some no_organ_result /\
  field "organName" no_organ_result = None /\
  settle (performAIAnalysis no_key (Some "iVBORw==")) (Responded (Some no_organ_text))
    = Returned no_organ_result /\
  state (session analyzing_world) = ANALYZING /\
  state (session (step analyzing_world
           (AnalysisCompleted 0 (Responded (Some no_organ_text))))) = RESULT /\
  errorMsg (session (step analyzing_world
              (AnalysisCompleted 0 (Responded (Some no_organ_text))))) = None.
Proof. vm_compute. repeat split. Qed.

(** C10. Whatever makes the analysis call fail (a rejected call, a response
    that is not JSON, a response without text), the completion stores one
    and the same message, [ERROR_MESSAGE], and the world after the failure
    does not depend on the cause. *)
Theorem C10_failure_message_is_constant (w : World) (k : nat) (call : Async json)
  (o1 o2 : RemoteOutcome) :
  mounted w = true ->
  nth_error (inflight w) k = Some call ->
  settle call o1 = Threw ->
  settle call o2 = Threw ->
  errorMsg (session (step w (AnalysisCompleted k o1))) = Some ERROR_MESSAGE /\
  state (session (step w (AnalysisCompleted k o1))) = ERROR /\
  step w (AnalysisCompleted k o1) = step w (AnalysisCompleted k o2).
Proof.
  intros Hm Hk H1 H2.
  rewrite (completion_applied w k call o1 Hm Hk), H1. simpl.
  split; [reflexivity|]. split; [reflexivity|].
  unfold step. rewrite Hm. simpl. rewrite Hk, H1, H2. reflexivity.
Qed.

Lemma C10_failure_message_is_constant_witness :
  errorMsg (session (step analyzing_world (AnalysisCompleted 0 Rejected)))
    = Some ERROR_MESSAGE /\
  state (session (step analyzing_world (AnalysisCompleted 0 Rejected))) = ERROR /\
  step analyzing_world (AnalysisCompleted 0 Rejected) =
  step analyzing_world (AnalysisCompleted 0 (Responded (Some "<html>"))).
Proof.
  apply (C10_failure_message_is_constant analyzing_world 0
           (performAIAnalysis no_key (Some "iVBORw=="))).
  - reflexivity.
  - reflexivity.
  - reflexivity.
  - vm_compute. reflexivity.
Defined.

(** C4 (as the code behaves). A completion that arrives after the session
    has left [ANALYZING] is applied like any other: a return stores the value
    and moves the session to [RESULT], a throw stores the fixed message and
    moves it to [ERROR]; the other fields are kept, and the call leaves the
    outstanding ones. *)
Theorem C4_late_completion_is_applied (w : World) (k : nat) (call : Async json)
  (o : RemoteOutcome) :
  mounted w = true ->
  state (session w) <> ANALYZING ->
  nth_error (inflight w) k = Some call ->
  session (step w (AnalysisCompleted k o)) =
    match settle call o with
    | Returned data =>
        {| state := RESULT; result := data;
           imagePreview := imagePreview (session w);
           errorMsg := errorMsg (session w) |}
    | Threw =>
        {| state := ERROR; result := result (session w);
           imagePreview := imagePreview (session w);
           errorMsg := Some ERROR_MESSAGE |}
    end /\
  inflight (step w (AnalysisCompleted k o)) = remove_nth k (inflight w).
Proof.
  intros Hm _ Hk. split.
  - now apply completion_applied.
  - now apply completion_consumed.
Qed.

Lemma C4_late_completion_is_applied_witness :
  session (step abandoned_world (AnalysisCompleted 0 (Responded (Some hand_text)))) =
    match settle (performAIAnalysis no_key (Some "iVBORw=="))
            (Responded (Some hand_text)) with
    | Returned data =>
        {| state := RESULT; result := data;
           imagePreview := imagePreview (session abandoned_world);
           errorMsg := errorMsg (session abandoned_world) |}
    | Threw =>
        {| state := ERROR; result := result (session abandoned_world);
           imagePreview := imagePreview (session abandoned_world);
           errorMsg := Some ERROR_MESSAGE |}
    end /\
  inflight (step abandoned_world (AnalysisCompleted 0 (Responded (Some hand_text))))
    = remove_nth 0 (inflight abandoned_world).
Proof.
  apply (C4_late_completion_is_applied abandoned_world 0
           (performAIAnalysis no_key (Some "iVBORw=="))).
  - reflexivity.
  - vm_compute. discriminate.
  - reflexivity.
Defined.

(** C4 fails as stated: the user resets to [IDLE] while the request is
    outstanding; the late success moves the session to [RESULT] and writes
    [result], the late failure moves it to [ERROR] and writes [errorMsg]. *)
Lemma C4_counterexample :
  state (session abandoned_world) = IDLE /\
  state (session (step abandoned_world
           (AnalysisCompleted 0 (Responded (Some hand_text))))) = RESULT /\
  result (session (step abandoned_world
            (AnalysisCompleted 0 (Responded (Some hand_text))))) = hand_result /\
  state (session (step abandoned_world (AnalysisCompleted 0 Rejected))) = ERROR /\
  errorMsg (session (step abandoned_world (AnalysisCompleted 0 Rejected)))
    = Some ERROR_MESSAGE.
Proof. vm_compute. repeat split. Qed.

(** C2 (as the code behaves). In state [RESULT] the home button, and the
    new-scan button whenever the result view is shown, move the session to
    [IDLE] and leave [imagePreview], [result] and [errorMsg] as they
    were. *)
Theorem C2_reset_keeps_fields (w : World) (ev : Event) :
  mounted w = true ->
  state (session w) = RESULT ->
  ev = ClickHome \/ (ev = ClickNewScan /\ truthy (result (session w)) = true) ->
  session (step w ev) =
    {| state := IDLE; result := result (session w);
       imagePreview := imagePreview (session w);
       errorMsg := errorMsg (session w) |}.
Proof.
  intros Hm Hs Hev. rewrite session_step by assumption.
  destruct Hev as [->|[-> Ht]]; simpl; rewrite Hs, ?Ht; reflexivity.
Qed.

Lemma C2_reset_keeps_fields_witness :
  session (step result_world ClickNewScan) =
    {| state := IDLE; result := result (session result_world);
       imagePreview := imagePreview (session result_world);
       errorMsg := errorMsg (session result_world) |}.
Proof.
  apply C2_reset_keeps_fields.
  - vm_compute. reflexivity.
  - vm_compute. reflexivity.
  - right. split; [reflexivity | vm_compute; reflexivity].
Defined.

(** C2 fails as stated: after the scenario upload, success, reset the
    session is [IDLE] but both the preview and the result are still
    stored. *)
Lemma C2_counterexample :
  state (session result_world) = RESULT /\
  state (session (step result_world ClickNewScan)) = IDLE /\
  imagePreview (session (step result_world ClickNewScan))
    = Some "data:image/jpeg;base64,iVBORw==" /\
  result (session (step result_world ClickNewScan)) = hand_result /\
  session (step result_world ClickHome) = session (step result_world ClickNewScan).
Proof. vm_compute. repeat split. Qed.

(** *** What one event can do to the fields *)

Lemma step_fields (w : World) (ev : Event) :
  (result (session (step w ev)) = result (session w) \/
   state (session (step w ev)) = RESULT) /\
  (errorMsg (session (step w ev)) = errorMsg (session w) \/
   (state (session (step w ev)) = ERROR /\
    errorMsg (session (step w ev)) = Some ERROR_MESSAGE)) /\
  (imagePreview (session (step w ev)) = imagePreview (session w) \/
   exists b, imagePreview (session (step w ev)) = Some (preview_of b) /\
             state (session (step w ev)) = ANALYZING).
Proof.
  destruct (mounted w) eqn:Hm.
  - rewrite session_step by assumption.
    destruct (handler_has_shape w ev) as [| | | | |b|k call o Hk]; simpl; auto.
    + split; [auto|]. split; [auto|]. right. now exists b.
    + destruct (settle call o); simpl; auto.
  - rewrite step_unmounted by assumption. auto.
Qed.

Lemma step_without_completion (w : World) (ev : Event) :
  spec_event ev <> Some analysisCompleted ->
  result (session (step w ev)) = result (session w) /\
  errorMsg (session (step w ev)) = errorMsg (session w).
Proof.
  intros Hev. destruct (mounted w) eqn:Hm.
  - rewrite session_step by assumption.
    destruct ev as [|file|k| |url| |k o| | |]; simpl;
      try (now contradiction Hev);
      try (destruct (nth_error (readers w) k); simpl; auto; fail);
      destruct (state (session w)); simpl; auto;
      try (destruct file; simpl; auto; fail);
      destruct (truthy (result (session w))); simpl; auto.
  - rewrite step_unmounted by assumption. auto.
Qed.

(** C3 (as the code behaves). In every reachable state, [errorMsg] is set
    whenever the state is [ERROR] and is never anything but the fixed
    message; an event changes [result] only while moving to [RESULT] and
    [errorMsg] only while moving to [ERROR]; and both are unset as long as
    no analysis has completed.  Neither is cleared on leaving its state. *)
Theorem C3_fields_written_on_entry (e : ProcessEnv) (evs : list Event) :
  let w := steps (initial_world e) evs in
  (state (session w) = ERROR -> errorMsg (session w) = Some ERROR_MESSAGE) /\
  (errorMsg (session w) = None \/ errorMsg (session w) = Some ERROR_MESSAGE) /\
  (forall ev,
     (result (session (step w ev)) = result (session w) \/
      state (session (step w ev)) = RESULT) /\
     (errorMsg (session (step w ev)) = errorMsg (session w) \/
      (state (session (step w ev)) = ERROR /\
       errorMsg (session (step w ev)) = Some ERROR_MESSAGE))) /\
  (Forall (fun ev => spec_event ev <> Some analysisCompleted) evs ->
   result (session w) = JNull /\ errorMsg (session w) = None).
Proof.
  intros w.
  assert (HI : Inv w) by (apply Inv_reachable; now exists e, evs).
  split; [apply (inv_error_set w HI)|].
  split; [apply (inv_error_form w HI)|].
  split.
  - intros ev. destruct (step_fields w ev) as (A & B & _). now split.
  - subst w. clear HI.
    induction evs as [|ev evs IH] using rev_ind; [now split|].
    intros H. apply Forall_app in H as [Hevs Hev].
    inversion Hev as [|? ? Hev' _]; subst.
    rewrite steps_snoc.
    destruct (step_without_completion (steps (initial_world e) evs) ev Hev')
      as [-> ->].
    now apply IH.
Qed.

(** C3 fails as stated: after a success, a reset and a failed second
    analysis the session is [ERROR] with both [result] and [errorMsg] set;
    and after the reset alone [result] is set in [IDLE]. *)
Lemma C3_counterexample :
  state (session failed_after_success_world) = ERROR /\
  result (session failed_after_success_world) = hand_result /\
  errorMsg (session failed_after_success_world) = Some ERROR_MESSAGE /\
  state (session (step result_world ClickNewScan)) = IDLE /\
  result (session (step result_world ClickNewScan)) = hand_result.
Proof. vm_compute. repeat split. Qed.

(** *** The upload path *)

Lemma nth_error_last {A : Type} (l : list A) (x : A) :
  nth_error (l ++ [x]) (length l) = Some x.
Proof. induction l as [|y l IH]; simpl; auto. Qed.

Lemma remove_nth_last {A : Type} (l : list A) (x : A) :
  remove_nth (length l) (l ++ [x]) = l.
Proof. induction l as [|y l IH]; simpl; [reflexivity | now rewrite IH]. Qed.

(** Choosing a file in [IDLE] only starts reading it. *)
Lemma choose_file_step (w : World) (f : File) :
  mounted w = true ->
  state (session w) = IDLE ->
  step w (ChooseFile (Some f)) =
    {| env := env w; session := session w; mounted := true;
       readers := readers w ++ [f]; inflight := inflight w |}.
Proof.
  intros Hm Hs. unfold step. rewrite Hm. simpl. rewrite Hs. simpl.
  unfold commit. simpl. now rewrite Hm.
Qed.

(** [startProcessing], whatever the state it finds. *)
Lemma startProcessing_commit (w : World) (b : option string) :
  commit (startProcessing (env w) b) w =
    {| env := env w;
       session := {| state := ANALYZING; result := result (session w);
                     imagePreview := Some (preview_of b);
                     errorMsg := errorMsg (session w) |};
       mounted := mounted w;
       readers := readers w;
       inflight := inflight w ++ [performAIAnalysis (env w) b] |}.
Proof. reflexivity. Qed.

(** The load of the most recent read: [startProcessing] runs with the
    payload of the URL reported, whatever the state. *)
Lemma reader_loaded_step (w : World) (f : File) (url : string) :
  step {| env := env w; session := session w; mounted := true;
          readers := readers w ++ [f]; inflight := inflight w |}
       (ReaderLoaded (length (readers w)) url) =
    {| env := env w;
       session := {| state := ANALYZING; result := result (session w);
                     imagePreview := Some (preview_of (payload_of url));
                     errorMsg := errorMsg (session w) |};
       mounted := true;
       readers := readers w;
       inflight := inflight w ++ [performAIAnalysis (env w) (payload_of url)] |}.
Proof.
  unfold step. cbn [mounted handler consume readers].
  rewrite nth_error_last. unfold reader_onload, drop_reader.
  cbn [env session mounted readers inflight].
  rewrite remove_nth_last. reflexivity.
Qed.

(** C6 (as the code behaves). An upload is refused only when no file was
    chosen: then nothing changes.  Any chosen file, the zero-byte one
    included, is read, and when the read completes, whatever URL it reports,
    the session enters [ANALYZING] with the preview of the payload stored and
    one call of [performAIAnalysis] outstanding for it.  For the URL that the
    File API prescribes the payload is the base64 text of the content, empty
    for an empty file. *)
Theorem C6_upload_is_not_validated (w : World) (f : File) (url : string) :
  mounted w = true ->
  state (session w) = IDLE ->
  step w (ChooseFile None) = w /\
  steps w [ChooseFile (Some f); ReaderLoaded (length (readers w)) url] =
    {| env := env w;
       session := {| state := ANALYZING; result := result (session w);
                     imagePreview := Some (preview_of (payload_of url));
                     errorMsg := errorMsg (session w) |};
       mounted := true;
       readers := readers w;
       inflight := inflight w ++ [performAIAnalysis (env w) (payload_of url)] |} /\
  (has_comma (file_type f) = false ->
   payload_of (readAsDataURL f) = Some (base64_encode (file_bytes f))).
Proof.
  intros Hm Hs. split; [|split].
  - unfold step. rewrite Hm. simpl. rewrite Hs. reflexivity.
  - unfold steps. cbn [fold_left].
    rewrite (choose_file_step w f Hm Hs).
    apply reader_loaded_step.
  - apply payload_of_readAsDataURL.
Qed.

Lemma C6_upload_is_not_validated_witness :
  step (initial_world no_key) (ChooseFile None) = initial_world no_key /\
  steps (initial_world no_key)
    [ChooseFile (Some empty_png);
     ReaderLoaded (length (readers (initial_world no_key))) (readAsDataURL empty_png)] =
    {| env := env (initial_world no_key);
       session := {| state := ANALYZING;
                     result := result (session (initial_world no_key));
                     imagePreview :=
                       Some (preview_of (payload_of (readAsDataURL empty_png)));
                     errorMsg := errorMsg (session (initial_world no_key)) |};
       mounted := true;
       readers := readers (initial_world no_key);
       inflight := inflight (initial_world no_key) ++
                   [performAIAnalysis (env (initial_world no_key))
                      (payload_of (readAsDataURL empty_png))] |} /\
  (has_comma (file_type empty_png) = false ->
   payload_of (readAsDataURL empty_png) = Some (base64_encode (file_bytes empty_png))).
Proof.
  apply (C6_upload_is_not_validated (initial_world no_key) empty_png
           (readAsDataURL empty_png)).
  - reflexivity.
  - reflexivity.
Defined.

(** C6 fails as stated: the upload of a zero-byte file takes the session
    from [IDLE] into [ANALYZING] and one analysis call is made, with an empty
    payload; with an engine that reports the bare URL the payload is
    [undefined] and the rest is the same. *)
Lemma C6_counterexample :
  file_bytes empty_png = [] /\
  state (session (initial_world no_key)) = IDLE /\
  state (session (steps (initial_world no_key)
                    [ChooseFile (Some empty_png);
                     ReaderLoaded 0 (readAsDataURL empty_png)])) = ANALYZING /\
  inflight (steps (initial_world no_key)
              [ChooseFile (Some empty_png);
               ReaderLoaded 0 (readAsDataURL empty_png)])
    = [performAIAnalysis no_key (Some "")] /\
  state (session (steps (initial_world no_key)
                    [ChooseFile (Some empty_png);
                     ReaderLoaded 0 bare_data_url])) = ANALYZING /\
  inflight (steps (initial_world no_key)
              [ChooseFile (Some empty_png); ReaderLoaded 0 bare_data_url])
    = [performAIAnalysis no_key None].
Proof. repeat (split; [reflexivity|]). reflexivity. Qed.

(** C5 (as the code behaves). [performAIAnalysis] checks nothing about its
    input: for every payload, the empty one included, it calls the model
    with the payload labelled [image/jpeg], and it throws only afterwards,
    when the call is rejected or the response text is not JSON.  On the
    upload path the declared type of the file does not reach the call. *)
Theorem C5_no_input_check (e : ProcessEnv) (b : option string) :
  exists call k,
    performAIAnalysis e b = Awaiting call k /\
    parts call = [inlineData "image/jpeg" b; text prompt] /\
    (forall o, k o = Threw <->
               o = Rejected \/
               exists t, o = Responded t /\ JSON_parse (ToString t) = None) /\
    (forall f, has_comma (file_type f) = false ->
               reader_onload e (readAsDataURL f) =
               startProcessing e (Some (base64_encode (file_bytes f)))).
Proof.
  eexists. eexists. split; [reflexivity|]. split; [reflexivity|]. split.
  - intros o. apply (analysis_throws_iff e b o).
  - intros f Hc. unfold reader_onload. now rewrite payload_of_readAsDataURL.
Qed.

(** C5 fails as stated: with an empty payload the call is issued, not
    refused, and can even return a result; and a file declared as
    [image/png] is sent labelled [image/jpeg]. *)
Lemma C5_counterexample :
  (exists call k,
     performAIAnalysis no_key (Some "") = Awaiting call k /\
     parts call = [inlineData "image/jpeg" (Some ""); text prompt] /\
     k (Responded (Some hand_text)) = Returned hand_result) /\
  file_type small_png = "image/png" /\
  (exists call k,
     inflight analyzing_world = [Awaiting call k] /\
     parts call = [inlineData "image/jpeg" (Some "iVBORw=="); text prompt]).
Proof.
  split; [|split].
  - eexists. eexists. split; [reflexivity|]. split; [reflexivity|].
    vm_compute. reflexivity.
  - reflexivity.
  - eexists. eexists. split; reflexivity.
Qed.

(** *** Events outside the table *)

(** C7 (as the code behaves). An event of a control that is rendered in one
    state only, delivered in a state for which the table has no row, changes
    nothing: a stray shutter press while [ANALYZING] does not start an
    analysis.  The home button is not of that kind: it is rendered in every
    state but [IDLE] and moves the session to [IDLE], also from [ANALYZING]
    and [CAMERA]. *)
Theorem C7_unlisted_gated_event_is_ignored (w : World) (ev : Event) :
  spec_listed (state (session w)) ev = false ->
  gated_by_view ev = true ->
  step w ev = w /\
  (mounted w = true -> state (session w) <> IDLE ->
   state (session (step w ClickHome)) = IDLE).
Proof.
  intros Hl Hg. split.
  - unfold step. destruct (mounted w); [|reflexivity].
    destruct ev as [|file|k| |url| |k o| | |]; try discriminate;
      unfold spec_listed in Hl; simpl in Hl; simpl;
      destruct (state (session w)); try discriminate; try reflexivity;
      destruct (truthy (result (session w))); reflexivity.
  - intros Hm Hs. rewrite session_step by assumption. simpl.
    destruct (state (session w)); [now contradiction Hs| | | |]; reflexivity.
Qed.

Lemma C7_unlisted_gated_event_is_ignored_witness :
  step analyzing_world (ClickShutter blank_canvas_url) = analyzing_world /\
  (mounted analyzing_world = true -> state (session analyzing_world) <> IDLE ->
   state (session (step analyzing_world ClickHome)) = IDLE).
Proof.
  apply (C7_unlisted_gated_event_is_ignored analyzing_world
           (ClickShutter blank_canvas_url)).
  - reflexivity.
  - reflexivity.
Defined.

(** C7 fails as stated: the table has no row for a reset while [ANALYZING]
    or [CAMERA], yet the home button moves the session to [IDLE] from
    both. *)
Lemma C7_counterexample :
  spec_listed (state (session analyzing_world)) ClickHome = false /\
  state (session analyzing_world) = ANALYZING /\
  state (session (step analyzing_world ClickHome)) = IDLE /\
  spec_listed CAMERA ClickHome = false /\
  state (session (steps (initial_world no_key) [ClickOpenCamera; ClickHome])) = IDLE.
Proof. vm_compute. repeat split. Qed.

(** *** The stored preview *)

(** Only [startProcessing] writes [ANALYZING]. *)
Lemma writes_ANALYZING_is_startProcessing (w : World) (ev : Event) :
  In (setState ANALYZING) (writes_of (handler w ev)) ->
  exists b, handler w ev = startProcessing (env w) b.
Proof.
  destruct (handler_has_shape w ev) as [|Hs|Hs|f Hs| |b|k call o Hk]; simpl.
  - tauto.
  - intros [E|[]]; discriminate.
  - intros [E|[]]; discriminate.
  - tauto.
  - tauto.
  - intros _. now exists b.
  - destruct (settle call o); simpl; intros [E|[E|[]]]; discriminate.
Qed.

(** C9 (as the code behaves). Every handler that writes [ANALYZING] is
    [startProcessing], which stores the preview, the fixed [image/jpeg]
    header followed by the payload, possibly empty, just before it writes
    the state; in every reachable state among [ANALYZING], [RESULT] and
    [ERROR] a preview of that form is stored; and no event clears it, in any
    state. *)
Theorem C9_preview_stored_on_entry (e : ProcessEnv) (evs : list Event) (ev : Event) :
  let w := steps (initial_world e) evs in
  (In (setState ANALYZING) (writes_of (handler w ev)) ->
   exists b,
     handler w ev = [ Set_ (setImagePreview (preview_of b));
                      Set_ (setState ANALYZING);
                      Spawn (performAIAnalysis (env w) b) ]) /\
  (state (session w) = ANALYZING \/ state (session w) = RESULT \/
   state (session w) = ERROR ->
   exists b, imagePreview (session w) = Some (preview_of b)) /\
  (imagePreview (session (step w ev)) = imagePreview (session w) \/
   exists b, imagePreview (session (step w ev)) = Some (preview_of b) /\
             state (session (step w ev)) = ANALYZING).
Proof.
  intros w.
  assert (HI : Inv w) by (apply Inv_reachable; now exists e, evs).
  split; [|split].
  - intros H. destruct (writes_ANALYZING_is_startProcessing w ev H) as [b Hb].
    exists b. exact Hb.
  - intros H.
    destruct (inv_preview_form w HI) as [N|S]; [|exact S].
    exfalso. apply (inv_preview_set w HI); [|exact N].
    destruct H as [H|[H|H]]; auto.
  - apply (step_fields w ev).
Qed.

(** C9 fails as stated: on both paths the session can enter [ANALYZING] with
    a preview that holds no image data, after the upload of a zero-byte file
    and after a shutter press on a canvas without pixels. *)
Lemma C9_counterexample :
  imagePreview (session (steps (initial_world no_key)
                           [ChooseFile (Some empty_png);
                            ReaderLoaded 0 (readAsDataURL empty_png)]))
    = Some (preview_of (Some "")) /\
  state (session (steps (initial_world no_key)
                    [ChooseFile (Some empty_png);
                     ReaderLoaded 0 (readAsDataURL empty_png)])) = ANALYZING /\
  payload_of (preview_of (Some "")) = Some "" /\
  imagePreview (session (steps (initial_world no_key)
                           [ClickOpenCamera; ClickShutter blank_canvas_url]))
    = Some (preview_of (Some "")) /\
  state (session (steps (initial_world no_key)
                    [ClickOpenCamera; ClickShutter blank_canvas_url])) = ANALYZING.
Proof. vm_compute. repeat split. Qed.

(* ===================================================================== *)
(** ** Further properties of the component *)
(* ===================================================================== *)

(** *** Completions and rendering *)


(** A completion, as one world: the continuation has run on the world
    without the call, and the component has rendered again. *)
Lemma completion_step (w : World) (k : nat) (call : Async json) (o : RemoteOutcome) :
  mounted w = true ->
  nth_error (inflight w) k = Some call ->
  step w (AnalysisCompleted k o) =
    rerender
      {| env := env w;
         session := apply_writes (writes_of (startProcessing_resume (settle call o)))
                      (session w);
         mounted := true;
         readers := readers w;
         inflight := remove_nth k (inflight w) |}.
Proof.
  intros Hm Hk. unfold step. rewrite Hm. cbn [handler consume]. rewrite Hk.
  unfold commit, drop_inflight.
  destruct (settle call o); cbn [startProcessing_resume existsb is_write orb];
    f_equal; unfold run; cbn [fold_left exec env session mounted readers inflight
                               writes_of apply_writes];
    rewrite ?app_nil_r, Hm; reflexivity.
Qed.




Lemma strings_are_children (ds : list string) :
  forallb valid_child (map JString ds) = true.
Proof. induction ds as [|d ds IH]; [reflexivity | exact IH]. Qed.

Lemma to_json_renders (r : AnalysisResult) :
  truthy (to_json r) = true /\ result_view_renders (to_json r) = true.
Proof.
  split; [reflexivity|].
  unfold result_view_renders, to_json. cbn [field get_prop String.eqb Ascii.eqb
    Bool.eqb valid_child_opt valid_child andb].
  apply strings_are_children.
Qed.

(** X2. When the response is the serialisation of a result of the declared
    shape, the completion stores exactly that result and the result view is
    on screen: the component stays mounted, and the new-scan button leads
    back to [IDLE]. *)
Theorem well_formed_result_is_shown (w : World) (k : nat) (b : option string)
  (r : AnalysisResult) :
  mounted w = true ->
  nth_error (inflight w) k = Some (performAIAnalysis (env w) b) ->
  plain_result r = true ->
  mounted (step w (AnalysisCompleted k (Responded (Some (JSON_stringify (to_json r))))))
    = true /\
  session (step w (AnalysisCompleted k (Responded (Some (JSON_stringify (to_json r))))))
    = {| state := RESULT; result := to_json r;
         imagePreview := imagePreview (session w);
         errorMsg := errorMsg (session w) |} /\
  main_view (session (step w (AnalysisCompleted k
                                (Responded (Some (JSON_stringify (to_json r)))))))
    = Some ResultView /\
  state (session (step (step w (AnalysisCompleted k
                                  (Responded (Some (JSON_stringify (to_json r))))))
                       ClickNewScan)) = IDLE.
Proof.
  intros Hm Hk Hp.
  pose proof (analysis_returns (env w) b (Some (JSON_stringify (to_json r))) _
                (well_formed_round_trip r Hp)) as Hr.
  destruct (to_json_renders r) as [Ht Hv].
  set (o := Responded (Some (JSON_stringify (to_json r)))) in *.
  assert (S1 : session (step w (AnalysisCompleted k o)) =
               {| state := RESULT; result := to_json r;
                  imagePreview := imagePreview (session w);
                  errorMsg := errorMsg (session w) |}).
  { rewrite (completion_applied w k _ o Hm Hk), Hr. reflexivity. }
  assert (M1 : mounted (step w (AnalysisCompleted k o)) = true).
  { rewrite (completion_step w k _ o Hm Hk), Hr. unfold rerender, renders.
    cbn [startProcessing_resume writes_of apply_writes fold_left apply_write
         session state result].
    rewrite Ht, Hv. reflexivity. }
  split; [exact M1|]. split; [exact S1|]. split.
  - rewrite S1. unfold main_view. cbn [state result]. now rewrite Ht.
  - rewrite (session_step _ ClickNewScan M1). cbn [handler]. rewrite S1.
    cbn [state result]. rewrite Ht. reflexivity.
Qed.

Lemma well_formed_result_is_shown_witness :
  mounted (step analyzing_world
             (AnalysisCompleted 0 (Responded (Some (JSON_stringify (to_json hand))))))
    = true /\
  session (step analyzing_world
             (AnalysisCompleted 0 (Responded (Some (JSON_stringify (to_json hand))))))
    = {| state := RESULT; result := to_json hand;
         imagePreview := imagePreview (session analyzing_world);
         errorMsg := errorMsg (session analyzing_world) |} /\
  main_view (session (step analyzing_world
                        (AnalysisCompleted 0
                           (Responded (Some (JSON_stringify (to_json hand)))))))
    = Some ResultView /\
  state (session (step (step analyzing_world
                          (AnalysisCompleted 0
                             (Responded (Some (JSON_stringify (to_json hand))))))
                       ClickNewScan)) = IDLE.
Proof.
  apply (well_formed_result_is_shown analyzing_world 0 (Some "iVBORw==") hand).
  - reflexivity.
  - reflexivity.
  - reflexivity.
Defined.



(** *** Reads and resets *)

(** The load of an outstanding read, as one world. *)
Lemma late_file_load_starts_analysis_aux (w : World) (k : nat) (f : File)
  (url : string) :
  mounted w = true ->
  nth_error (readers w) k = Some f ->
  step w (ReaderLoaded k url) =
    {| env := env w;
       session := {| state := ANALYZING; result := result (session w);
                     imagePreview := Some (preview_of (payload_of url));
                     errorMsg := errorMsg (session w) |};
       mounted := true;
       readers := remove_nth k (readers w);
       inflight := inflight w ++ [performAIAnalysis (env w) (payload_of url)] |}.
Proof.
  intros Hm Hk. unfold step. rewrite Hm. cbn [handler consume]. rewrite Hk.
  unfold reader_onload, drop_reader.
  etransitivity.
  - exact (startProcessing_commit
             {| env := env w; session := session w; mounted := mounted w;
                readers := remove_nth k (readers w); inflight := inflight w |}
             (payload_of url)).
  - cbn [env session mounted readers inflight]. now rewrite Hm.
Qed.

Lemma remove_nth_middle {A : Type} (l : list A) (x : A) (r : list A) :
  remove_nth (length l) (l ++ x :: r) = l ++ r.
Proof. induction l as [|y l IH]; cbn; [reflexivity | now rewrite IH]. Qed.

(** X4. The load of an outstanding file read starts an analysis whatever the
    state the component is in by then (the camera view, a running analysis,
    a result): the preview is replaced, the state becomes [ANALYZING], and
    one more call is outstanding beside those already there. *)
Theorem late_file_load_starts_analysis (w : World) (k : nat) (f : File)
  (url : string) :
  mounted w = true ->
  nth_error (readers w) k = Some f ->
  step w (ReaderLoaded k url) =
    {| env := env w;
       session := {| state := ANALYZING; result := result (session w);
                     imagePreview := Some (preview_of (payload_of url));
                     errorMsg := errorMsg (session w) |};
       mounted := true;
       readers := remove_nth k (readers w);
       inflight := inflight w ++ [performAIAnalysis (env w) (payload_of url)] |}.
Proof. apply late_file_load_starts_analysis_aux. Qed.

Lemma late_file_load_starts_analysis_witness :
  step camera_with_pending_read (ReaderLoaded 0 (readAsDataURL small_png)) =
    {| env := env camera_with_pending_read;
       session := {| state := ANALYZING;
                     result := result (session camera_with_pending_read);
                     imagePreview :=
                       Some (preview_of (payload_of (readAsDataURL small_png)));
                     errorMsg := errorMsg (session camera_with_pending_read) |};
       mounted := true;
       readers := remove_nth 0 (readers camera_with_pending_read);
       inflight := inflight camera_with_pending_read ++
                   [performAIAnalysis (env camera_with_pending_read)
                      (payload_of (readAsDataURL small_png))] |}.
Proof.
  apply (late_file_load_starts_analysis camera_with_pending_read 0 small_png).
  - reflexivity.
  - reflexivity.
Defined.

(** X5. The home button only changes the state: from every state but [IDLE]
    it leads to [IDLE], and the stored fields, the file reads and the
    analysis calls that are outstanding all stay as they are (nothing is
    cancelled), and the component stays mounted. *)
Theorem home_keeps_everything_outstanding (w : World) :
  mounted w = true ->
  state (session w) <> IDLE ->
  step w ClickHome =
    {| env := env w;
       session := {| state := IDLE; result := result (session w);
                     imagePreview := imagePreview (session w);
                     errorMsg := errorMsg (session w) |};
       mounted := true;
       readers := readers w;
       inflight := inflight w |}.
Proof.
  intros Hm Hs. unfold step. rewrite Hm. cbn [handler consume].
  destruct (state (session w)) eqn:E; [now contradiction Hs| | | |];
    unfold commit, rerender, renders; cbn; rewrite Hm; reflexivity.
Qed.

Lemma home_keeps_everything_outstanding_witness :
  step analyzing_world ClickHome =
    {| env := env analyzing_world;
       session := {| state := IDLE; result := result (session analyzing_world);
                     imagePreview := imagePreview (session analyzing_world);
                     errorMsg := errorMsg (session analyzing_world) |};
       mounted := true;
       readers := readers analyzing_world;
       inflight := inflight analyzing_world |}.
Proof.
  apply (home_keeps_everything_outstanding analyzing_world).
  - reflexivity.
  - vm_compute. discriminate.
Defined.

(** *** The payload of a data URL *)

Lemma split_on_nonempty (sep : ascii) (s : string) : split_on sep s <> [].
Proof.
  destruct s as [|c s]; cbn [split_on]; [discriminate|].
  destruct (Ascii.eqb c sep); [discriminate|].
  destruct (split_on sep s); discriminate.
Qed.

(** X6. [url.split(',')[1]]: a URL without a comma has no payload
    ([undefined], and the preview then ends in the text of [undefined]);
    otherwise the payload is what stands between the first comma and the
    next one (or the end).  For a JPEG data URL with base64 data, the
    preview rebuilt from the payload is the URL itself. *)
Theorem payload_of_data_url (a p q : string) :
  has_comma a = false ->
  has_comma p = false ->
  payload_of a = None /\
  preview_of (payload_of a) = "data:image/jpeg;base64,undefined" /\
  payload_of (a ++ "," ++ p) = Some p /\
  payload_of (a ++ "," ++ p ++ "," ++ q) = Some p /\
  preview_of (payload_of ("data:image/jpeg;base64," ++ p))
    = ("data:image/jpeg;base64," ++ p)%string.
Proof.
  intros Ha Hp.
  assert (A : payload_of a = None).
  { unfold payload_of. now rewrite (split_on_no_comma a Ha). }
  assert (B : forall x, has_comma x = false -> payload_of (x ++ "," ++ p) = Some p).
  { intros x Hx. unfold payload_of.
    change (x ++ "," ++ p)%string with (x ++ String (chr 44) p)%string.
    rewrite (split_on_comma_app x p Hx), (split_on_no_comma p Hp). reflexivity. }
  split; [exact A|]. split; [now rewrite A|]. split; [now apply B|]. split.
  - unfold payload_of.
    change (a ++ "," ++ p ++ "," ++ q)%string
      with (a ++ String (chr 44) (p ++ String (chr 44) q))%string.
    rewrite (split_on_comma_app a _ Ha), (split_on_comma_app p q Hp). reflexivity.
  - change ("data:image/jpeg;base64," ++ p)%string
      with ("data:image/jpeg;base64" ++ "," ++ p)%string at 1.
    rewrite (B "data:image/jpeg;base64" eq_refl). reflexivity.
Qed.

Lemma payload_of_data_url_witness :
  payload_of "data:" = None /\
  preview_of (payload_of "data:") = "data:image/jpeg;base64,undefined" /\
  payload_of ("data:" ++ "," ++ "iVBORw==") = Some "iVBORw==" /\
  payload_of ("data:" ++ "," ++ "iVBORw==" ++ "," ++ "x") = Some "iVBORw==" /\
  preview_of (payload_of ("data:image/jpeg;base64," ++ "iVBORw=="))
    = ("data:image/jpeg;base64," ++ "iVBORw==")%string.
Proof.
  apply (payload_of_data_url "data:" "iVBORw==" "x").
  - reflexivity.
  - reflexivity.
Defined.

(** *** The requests *)

(** X7. Every analysis call that is outstanding in a reachable world was
    issued by [performAIAnalysis] with the key of the environment the
    component started in: the fixed model, one image part labelled
    [image/jpeg] followed by the prompt, a JSON response under the schema of
    the four required fields; only the payload differs between calls. *)
Theorem outstanding_calls_are_uniform (e : ProcessEnv) (evs : list Event) :
  Forall
    (fun c =>
       exists b k,
         c = Awaiting
               {| apiKey := match API_KEY e with
                            | Some key => key
                            | None => ""
                            end;
                  model := "gemini-3-flash-preview";
                  parts := [inlineData "image/jpeg" b; text prompt];
                  responseMimeType := "application/json";
                  responseSchema := analysis_schema |} k /\
         forall t, k (Responded t) =
                   match JSON_parse (ToString t) with
                   | Some v => Returned v
                   | None => Threw
                   end)
    (inflight (steps (initial_world e) evs)).
Proof.
  assert (HI : Inv (steps (initial_world e) evs))
    by (apply Inv_reachable; now exists e, evs).
  pose proof (inv_calls _ HI) as H. rewrite env_steps in H. cbn [env initial_world] in H.
  eapply Forall_impl; [|exact H].
  intros c [b ->]. exists b. eexists. split; [reflexivity|].
  intros t. reflexivity.
Qed.

(** *** The schema and the result view *)

Lemma conforms_string_child (v : json) :
  conforms STRING v = true -> valid_child v = true.
Proof. destruct v; simpl; congruence. Qed.

Lemma conforms_strings_children (l : list json) :
  forallb (conforms STRING) l = true -> forallb valid_child l = true.
Proof.
  induction l as [|x l IH]; [reflexivity|]. cbn [forallb].
  intros H. apply andb_true_iff in H as [Hx Hl].
  now rewrite (conforms_string_child x Hx), (IH Hl).
Qed.

(** X8. A response that matches the schema sent with the request is an
    object whose result view renders: it is truthy, its three scalar fields
    are strings and its [professionalDetails] is an array of strings.  Every
    result of the declared shape matches the schema. *)
Theorem schema_conforming_result_renders (v : json) (r : AnalysisResult) :
  conforms analysis_schema v = true ->
  truthy v = true /\
  details_is_array v = true /\
  result_view_renders v = true /\
  renders {| state := RESULT; result := v; imagePreview := None; errorMsg := None |}
    = true /\
  conforms analysis_schema (to_json r) = true.
Proof.
  intros H.
  assert (R : conforms analysis_schema (to_json r) = true).
  { unfold analysis_schema, to_json.
    cbn [conforms forallb get_prop String.eqb Ascii.eqb Bool.eqb andb].
    induction (professionalDetails r) as [|d ds IH]; [reflexivity | exact IH]. }
  destruct v as [| | | | |fields]; try discriminate.
  unfold analysis_schema in H. cbn [conforms forallb] in H.
  destruct (get_prop "imagingType" fields) as [x1|] eqn:E1; [|discriminate].
  destruct (get_prop "organName" fields) as [x2|] eqn:E2; [|discriminate].
  destruct (get_prop "findings" fields) as [x3|] eqn:E3; [|discriminate].
  destruct (get_prop "professionalDetails" fields) as [x4|] eqn:E4; [|discriminate].
  cbn [andb] in H.
  apply andb_true_iff in H as [H1 H].
  apply andb_true_iff in H as [H2 H].
  apply andb_true_iff in H as [H3 H].
  apply andb_true_iff in H as [H4 _].
  destruct x4 as [| | | |items|]; try discriminate.
  assert (V : result_view_renders (JObject fields) = true).
  { unfold result_view_renders. cbn [field]. rewrite E1, E2, E3, E4.
    cbn [valid_child_opt].
    rewrite (conforms_string_child x1 H1), (conforms_string_child x2 H2),
      (conforms_string_child x3 H3).
    cbn [andb]. now apply conforms_strings_children. }
  split; [reflexivity|]. split.
  - unfold details_is_array. cbn [field]. now rewrite E4.
  - split; [exact V|]. split; [|exact R].
    unfold renders. cbn [state result truthy]. exact V.
Qed.

Lemma schema_conforming_result_renders_witness :
  truthy hand_result = true /\
  details_is_array hand_result = true /\
  result_view_renders hand_result = true /\
  renders {| state := RESULT; result := hand_result; imagePreview := None;
             errorMsg := None |} = true /\
  conforms analysis_schema (to_json hand) = true.
Proof.
  apply (schema_conforming_result_renders hand_result hand).
  reflexivity.
Defined.

(* ===================================================================== *)
(** ** Properties of the camera view *)
(* ===================================================================== *)

Lemma nth_error_update_nth {A : Type} (f : A -> A) (l : list A) (i j : nat) :
  nth_error (update_nth i f l) j =
  if Nat.eqb i j then option_map f (nth_error l j) else nth_error l j.
Proof.
  revert i j. induction l as [|x l IH]; intros i j.
  - destruct j; destruct (Nat.eqb i _); reflexivity.
  - destruct i as [|i], j as [|j]; cbn [update_nth nth_error Nat.eqb];
      try reflexivity.
    apply IH.
Qed.

Lemma map_update_nth {A B : Type} (g : A -> B) (f : A -> A) (i : nat) (l : list A) :
  (forall x, g (f x) = g x) -> map g (update_nth i f l) = map g l.
Proof.
  intros H. revert i. induction l as [|x l IH]; intros i; [reflexivity|].
  destruct i; cbn [update_nth map]; [now rewrite H | now rewrite IH].
Qed.

Lemma Forall_update_nth {A : Type} (P : A -> Prop) (f : A -> A) (i : nat)
  (l : list A) :
  (forall x, P x -> P (f x)) -> Forall P l -> Forall P (update_nth i f l).
Proof.
  intros Hf H. revert i. induction H as [|x l Hx Hl IH]; intros i;
    [constructor|].
  destruct i; cbn [update_nth]; constructor; auto.
Qed.

Lemma update_nth_fixed {A : Type} (f : A -> A) (i : nat) (l : list A) (x : A) :
  nth_error l i = Some x -> f x = x -> update_nth i f l = l.
Proof.
  revert i. induction l as [|y l IH]; intros i; [reflexivity|].
  destruct i; cbn [nth_error update_nth].
  - intros [= ->] ->. reflexivity.
  - intros H1 H2. now rewrite (IH i H1 H2).
Qed.

Lemma grant_camera_mounted (s : nat) (c : Camera) :
  cam_mounted (grant_camera s c) = cam_mounted c.
Proof. unfold grant_camera. destruct (cam_request c); reflexivity. Qed.

Lemma deny_camera_mounted (c : Camera) :
  cam_mounted (deny_camera c) = cam_mounted c.
Proof. unfold deny_camera. destruct (cam_request c); reflexivity. Qed.

Lemma unmount_camera_mounted (c : Camera) :
  cam_mounted (unmount_camera c) = false.
Proof. unfold unmount_camera. destruct (cam_mounted c) eqn:E; [reflexivity | exact E]. Qed.

Lemma map_unmount_flags (cams : list Camera) :
  map cam_mounted (map unmount_camera cams) = repeat false (length cams).
Proof.
  induction cams as [|c cams IH]; [reflexivity|].
  cbn [map length repeat]. now rewrite unmount_camera_mounted, IH.
Qed.

Lemma repeat_false_snoc (n : nat) :
  repeat false n ++ [false] = repeat false (S n).
Proof. induction n as [|n IH]; [reflexivity|]. cbn [repeat app]. now rewrite IH. Qed.

Lemma camera_ok_unmount (c : Camera) : camera_ok c -> camera_ok (unmount_camera c).
Proof.
  intros (H1 & H2 & H3 & H4 & H5 & H6). unfold unmount_camera.
  destruct (cam_mounted c) eqn:M; [|unfold camera_ok; intuition congruence].
  specialize (H1 eq_refl).
  unfold camera_ok. cbn [cam_mounted cam_stops cam_stream cam_request cam_srcObject].
  split; [discriminate|]. split; [destruct (cam_stream c); lia|].
  split; [intros E; rewrite E; exact H1|]. split; [exact H4|]. auto.
Qed.

Lemma camera_ok_grant (s : nat) (c : Camera) : camera_ok c -> camera_ok (grant_camera s c).
Proof.
  intros (H1 & H2 & H3 & H4 & H5 & H6). unfold grant_camera.
  destruct (cam_request c) eqn:R; [|unfold camera_ok; intuition congruence..].
  unfold camera_ok. cbn [cam_mounted cam_stops cam_stream cam_request cam_srcObject].
  split; [exact H1|]. split; [exact H2|].
  split; [discriminate|]. split; [discriminate|]. split; [discriminate|].
  intros M. now rewrite M.
Qed.

Lemma camera_ok_deny (c : Camera) : camera_ok c -> camera_ok (deny_camera c).
Proof.
  intros (H1 & H2 & H3 & H4 & H5 & H6). unfold deny_camera.
  destruct (cam_request c) eqn:R; [|unfold camera_ok; intuition congruence..].
  unfold camera_ok. cbn [cam_mounted cam_stops cam_stream cam_request cam_srcObject].
  split; [exact H1|]. split; [exact H2|]. split; [exact H3|].
  split; [discriminate|]. auto.
Qed.

Lemma camera_ok_new : camera_ok new_camera.
Proof. unfold camera_ok, new_camera. cbn. auto 10. Qed.

Lemma StageInv_initial (e : ProcessEnv) : StageInv (initial_stage e).
Proof. split; [now exists 0 | constructor]. Qed.

Lemma StageInv_transition (st : Stage) (w' : World) :
  StageInv st -> StageInv (app_transition st w').
Proof.
  intros [[n Hn] He]. unfold app_transition, sync_cameras.
  split; cbn [app_world cameras].
  - destruct (camera_shown (app_world st)), (camera_shown w').
    + now exists n.
    + exists (length (cameras st)). now rewrite map_unmount_flags, app_nil_r.
    + exists n. rewrite map_app, Hn, app_nil_r. reflexivity.
    + now exists n.
  - destruct (camera_shown (app_world st)), (camera_shown w'); auto.
    + apply Forall_map. eapply Forall_impl; [|exact He].
      intros c. apply camera_ok_unmount.
    + apply Forall_app. split; [exact He|]. constructor; [|constructor].
      apply camera_ok_new.
Qed.

Lemma StageInv_step (st : Stage) (sev : StageEvent) :
  StageInv st -> StageInv (stage_step st sev).
Proof.
  intros H. destruct sev as [ev|frame|i s|i]; cbn [stage_step].
  - destruct ev; auto using StageInv_transition.
  - destruct (mounted_camera (cameras st)); auto using StageInv_transition.
  - destruct H as [[n Hn] He]. split; cbn [app_world cameras].
    + exists n. rewrite map_update_nth; [exact Hn|]. apply grant_camera_mounted.
    + apply Forall_update_nth; [|exact He]. apply camera_ok_grant.
  - destruct H as [[n Hn] He]. split; cbn [app_world cameras].
    + exists n. rewrite map_update_nth; [exact Hn|]. apply deny_camera_mounted.
    + apply Forall_update_nth; [|exact He]. apply camera_ok_deny.
Qed.

Lemma stage_steps_snoc (st : Stage) (sevs : list StageEvent) (sev : StageEvent) :
  stage_steps st (sevs ++ [sev]) = stage_step (stage_steps st sevs) sev.
Proof. unfold stage_steps. now rewrite fold_left_app. Qed.

Lemma StageInv_reachable (e : ProcessEnv) (sevs : list StageEvent) :
  StageInv (stage_steps (initial_stage e) sevs).
Proof.
  induction sevs as [|sev sevs IH] using rev_ind.
  - apply StageInv_initial.
  - rewrite stage_steps_snoc. now apply StageInv_step.
Qed.

Lemma camera_shown_inv (w : World) :
  camera_shown w = true -> mounted w = true /\ state (session w) = CAMERA.
Proof.
  unfold camera_shown. intros H. apply andb_true_iff in H as [Hm Hs].
  split; [exact Hm|]. destruct (state (session w)); try discriminate. reflexivity.
Qed.

Lemma mounted_camera_shown (st : Stage) (c : Camera) :
  StageInv st -> In c (cameras st) -> cam_mounted c = true ->
  camera_shown (app_world st) = true.
Proof.
  intros [[n Hn] _] Hin Hm.
  destruct (camera_shown (app_world st)); [reflexivity|].
  rewrite app_nil_r in Hn.
  apply (in_map cam_mounted) in Hin. rewrite Hn, Hm in Hin.
  apply repeat_spec in Hin. discriminate.
Qed.

Lemma find_last_flag (cams : list Camera) (n : nat) :
  map cam_mounted cams = repeat false n ++ [true] ->
  exists c, find cam_mounted cams = Some c.
Proof.
  revert cams. induction n as [|n IH]; intros cams H.
  - destruct cams as [|c cams]; [discriminate|]. cbn in H.
    injection H as Hc _. exists c. cbn [find]. now rewrite Hc.
  - destruct cams as [|c cams]; [discriminate|]. cbn in H.
    injection H as Hc Hr. cbn [find]. rewrite Hc. now apply IH.
Qed.

Lemma shown_has_camera (st : Stage) :
  StageInv st -> camera_shown (app_world st) = true ->
  exists c, mounted_camera (cameras st) = Some c.
Proof.
  intros [[n Hn] _] Hs. rewrite Hs in Hn. now apply (find_last_flag _ n).
Qed.

(** A press on the shutter in the camera view, as one world. *)
Lemma shutter_step (w : World) (url : string) :
  camera_shown w = true ->
  step w (ClickShutter url) =
    {| env := env w;
       session := {| state := ANALYZING; result := result (session w);
                     imagePreview := Some (preview_of (payload_of url));
                     errorMsg := errorMsg (session w) |};
       mounted := true;
       readers := readers w;
       inflight := inflight w ++ [performAIAnalysis (env w) (payload_of url)] |}.
Proof.
  intros H. apply camera_shown_inv in H as [Hm Hs].
  unfold step. rewrite Hm. cbn [handler consume]. rewrite Hs.
  unfold handleSnap. rewrite startProcessing_commit. now rewrite Hm.
Qed.

(** X9. In every stage that can be reached, the camera views are all
    unmounted but possibly the last, and the last is mounted exactly when
    the component shows the camera block; the tracks of a stream are never
    stopped twice and never while its view is on screen; and a video element
    shows a stream only in a mounted view whose stream is running. *)
Theorem camera_views_follow_state (e : ProcessEnv) (sevs : list StageEvent) :
  (exists n,
     map cam_mounted (cameras (stage_steps (initial_stage e) sevs)) =
     repeat false n ++
     (if camera_shown (app_world (stage_steps (initial_stage e) sevs))
      then [true] else [])) /\
  Forall (fun c =>
            cam_stops c <= 1 /\
            (cam_mounted c = true -> cam_stops c = 0) /\
            (cam_srcObject c <> None ->
             cam_mounted c = true /\ stream_live c = true))
         (cameras (stage_steps (initial_stage e) sevs)).
Proof.
  destruct (StageInv_reachable e sevs) as [Hshape Heach].
  split; [exact Hshape|].
  eapply Forall_impl; [|exact Heach].
  intros c (H1 & H2 & H3 & H4 & H5 & H6).
  split; [exact H2|]. split; [exact H1|].
  intros Hsrc.
  assert (M : cam_mounted c = true).
  { destruct (cam_mounted c); [reflexivity|]. now contradiction Hsrc; apply H6. }
  split; [exact M|].
  unfold stream_live. destruct (cam_stream c) eqn:S1.
  - now rewrite (H1 M).
  - now contradiction Hsrc; apply H5.
Qed.

(** X10. Leaving the camera view releases the camera it holds: if the view
    on screen has obtained a stream, any event after which the camera block
    is no longer shown (close, capture, home, a late completion or file
    load) runs the cleanup, which stops the tracks of that stream, once. *)
Theorem leaving_camera_stops_stream (e : ProcessEnv) (sevs : list StageEvent)
  (sev : StageEvent) (i : nat) (c : Camera) (s : nat) :
  nth_error (cameras (stage_steps (initial_stage e) sevs)) i = Some c ->
  cam_mounted c = true ->
  cam_stream c = Some s ->
  camera_shown (app_world (stage_step (stage_steps (initial_stage e) sevs) sev)) = false ->
  exists c',
    nth_error (cameras (stage_step (stage_steps (initial_stage e) sevs) sev)) i = Some c' /\
    cam_mounted c' = false /\
    cam_stream c' = Some s /\
    cam_stops c' = 1 /\
    stream_live c' = false.
Proof.
  set (st := stage_steps (initial_stage e) sevs).
  intros Hi Hm Hs Hgone.
  pose proof (StageInv_reachable e sevs) as HI. fold st in HI.
  assert (Hin : In c (cameras st)) by (eapply nth_error_In; eassumption).
  pose proof (mounted_camera_shown st c HI Hin Hm) as Hshown.
  assert (Hok : camera_ok c).
  { destruct HI as [_ He]. rewrite Forall_forall in He. now apply He. }
  destruct Hok as (H1 & _).
  assert (T : forall w', camera_shown w' = false ->
            exists c', nth_error (cameras (app_transition st w')) i = Some c' /\
                       cam_mounted c' = false /\ cam_stream c' = Some s /\
                       cam_stops c' = 1 /\ stream_live c' = false).
  { intros w' Hw'. exists (unmount_camera c).
    unfold app_transition, sync_cameras. cbn [cameras]. rewrite Hshown, Hw'.
    rewrite nth_error_map, Hi. split; [reflexivity|].
    unfold unmount_camera, stream_live. rewrite Hm. cbn. rewrite Hs, (H1 Hm).
    repeat split. }
  destruct sev as [ev|frame|j s'|j]; cbn [stage_step] in *.
  - destruct ev; try (now apply T); congruence.
  - destruct (mounted_camera (cameras st)); [now apply T | congruence].
  - cbn [app_world] in Hgone. congruence.
  - cbn [app_world] in Hgone. congruence.
Qed.

Lemma leaving_camera_stops_stream_witness :
  exists c',
    nth_error (cameras (stage_step (stage_steps (initial_stage no_key)
                                      [AppEvent ClickOpenCamera; CameraGranted 0 7])
                                   (AppEvent ClickCloseCamera))) 0 = Some c' /\
    cam_mounted c' = false /\
    cam_stream c' = Some 7 /\
    cam_stops c' = 1 /\
    stream_live c' = false.
Proof.
  apply (leaving_camera_stops_stream no_key
           [AppEvent ClickOpenCamera; CameraGranted 0 7]
           (AppEvent ClickCloseCamera) 0
           {| cam_mounted := true; cam_request := Granted; cam_stream := Some 7;
              cam_srcObject := Some 7; cam_stops := 0 |} 7).
  - reflexivity.
  - reflexivity.
  - reflexivity.
  - reflexivity.
Defined.

(** A view that is off screen and whose request has ended never changes
    again. *)
Lemma closed_camera_is_stable (st : Stage) (sev : StageEvent) (i : nat) (c : Camera) :
  nth_error (cameras st) i = Some c ->
  cam_mounted c = false ->
  cam_request c <> Pending ->
  nth_error (cameras (stage_step st sev)) i = Some c.
Proof.
  intros Hi Hm Hr.
  assert (U : unmount_camera c = c) by (unfold unmount_camera; now rewrite Hm).
  assert (T : forall w', nth_error (cameras (app_transition st w')) i = Some c).
  { intros w'. unfold app_transition, sync_cameras. cbn [cameras].
    destruct (camera_shown (app_world st)), (camera_shown w'); auto.
    - rewrite nth_error_map, Hi. cbn [option_map]. now rewrite U.
    - rewrite nth_error_app1; [exact Hi|].
      apply nth_error_Some. congruence. }
  destruct sev as [ev|frame|j s|j]; cbn [stage_step cameras].
  - destruct ev; auto.
  - destruct (mounted_camera (cameras st)); auto.
  - rewrite nth_error_update_nth. destruct (Nat.eqb j i); [|exact Hi].
    rewrite Hi. cbn [option_map]. unfold grant_camera.
    destruct (cam_request c); [now contradiction Hr | reflexivity..].
  - rewrite nth_error_update_nth. destruct (Nat.eqb j i); [|exact Hi].
    rewrite Hi. cbn [option_map]. unfold deny_camera.
    destruct (cam_request c); [now contradiction Hr | reflexivity..].
Qed.

Lemma closed_camera_is_stable_steps (sevs : list StageEvent) :
  forall (st : Stage) (i : nat) (c : Camera),
    nth_error (cameras st) i = Some c ->
    cam_mounted c = false ->
    cam_request c <> Pending ->
    nth_error (cameras (stage_steps st sevs)) i = Some c.
Proof.
  induction sevs as [|sev sevs IH]; intros st i c Hi Hm Hr; [exact Hi|].
  unfold stage_steps. cbn [fold_left]. apply IH; auto.
  now apply closed_camera_is_stable.
Qed.

(** X11. When the camera view is closed before its request for the camera
    has been answered, the cleanup finds no stream; if the request is
    granted afterwards, the stream it delivers is stored in a closure that
    nothing reads again: whatever happens later, its tracks are never
    stopped. *)
Theorem stream_granted_after_close_is_never_stopped (e : ProcessEnv)
  (sevs later : list StageEvent) (i : nat) (c : Camera) (s : nat) :
  nth_error (cameras (stage_steps (initial_stage e) sevs)) i = Some c ->
  cam_mounted c = false ->
  cam_request c = Pending ->
  exists c',
    nth_error
      (cameras (stage_steps
                  (stage_step (stage_steps (initial_stage e) sevs) (CameraGranted i s))
                  later)) i = Some c' /\
    cam_mounted c' = false /\
    cam_stream c' = Some s /\
    cam_srcObject c' = None /\
    cam_stops c' = 0 /\
    stream_live c' = true.
Proof.
  set (st := stage_steps (initial_stage e) sevs).
  intros Hi Hm Hr.
  pose proof (StageInv_reachable e sevs) as HI. fold st in HI.
  assert (Hok : camera_ok c).
  { destruct HI as [_ He]. rewrite Forall_forall in He. apply He.
    eapply nth_error_In; eassumption. }
  destruct Hok as (_ & _ & H3 & H4 & _).
  pose proof (H3 (H4 Hr)) as Hstops.
  exists (grant_camera s c).
  assert (G : grant_camera s c =
              {| cam_mounted := false; cam_request := Granted; cam_stream := Some s;
                 cam_srcObject := None; cam_stops := 0 |}).
  { unfold grant_camera. now rewrite Hr, Hm, Hstops. }
  split.
  - apply closed_camera_is_stable_steps.
    + cbn [stage_step cameras]. rewrite nth_error_update_nth, Nat.eqb_refl, Hi.
      reflexivity.
    + now rewrite G.
    + rewrite G. discriminate.
  - rewrite G. repeat split.
Qed.

Lemma stream_granted_after_close_is_never_stopped_witness :
  exists c',
    nth_error
      (cameras (stage_steps
                  (stage_step (stage_steps (initial_stage no_key)
                                 [AppEvent ClickOpenCamera; AppEvent ClickCloseCamera])
                              (CameraGranted 0 7))
                  [AppEvent ClickOpenCamera; CameraGranted 1 8;
                   AppEvent ClickCloseCamera])) 0 = Some c' /\
    cam_mounted c' = false /\
    cam_stream c' = Some 7 /\
    cam_srcObject c' = None /\
    cam_stops c' = 0 /\
    stream_live c' = true.
Proof.
  apply (stream_granted_after_close_is_never_stopped no_key
           [AppEvent ClickOpenCamera; AppEvent ClickCloseCamera]
           [AppEvent ClickOpenCamera; CameraGranted 1 8; AppEvent ClickCloseCamera]
           0
           {| cam_mounted := false; cam_request := Pending; cam_stream := None;
              cam_srcObject := None; cam_stops := 0 |} 7).
  - reflexivity.
  - reflexivity.
  - reflexivity.
Defined.

Lemma find_unmounted (cams : list Camera) :
  find cam_mounted (map unmount_camera cams) = None.
Proof.
  induction cams as [|c cams IH]; [reflexivity|].
  cbn [map find]. now rewrite unmount_camera_mounted.
Qed.

(** X12. A press on the shutter while the view on screen has no stream (the
    request is pending or was refused) draws a video without dimensions: the
    canvas has no pixels, the payload is empty, and an analysis of the empty
    image is started all the same. *)
Theorem shutter_without_stream_sends_empty_image (e : ProcessEnv)
  (sevs : list StageEvent) (frame : option (list Byte.byte)) (c : Camera) :
  mounted_camera (cameras (stage_steps (initial_stage e) sevs)) = Some c ->
  cam_stream c = None ->
  app_world (stage_step (stage_steps (initial_stage e) sevs) (PressShutter frame)) =
    {| env := env (app_world (stage_steps (initial_stage e) sevs));
       session :=
         {| state := ANALYZING;
            result := result (session (app_world (stage_steps (initial_stage e) sevs)));
            imagePreview := Some "data:image/jpeg;base64,";
            errorMsg := errorMsg (session (app_world (stage_steps (initial_stage e) sevs))) |};
       mounted := true;
       readers := readers (app_world (stage_steps (initial_stage e) sevs));
       inflight := inflight (app_world (stage_steps (initial_stage e) sevs)) ++
                   [performAIAnalysis
                      (env (app_world (stage_steps (initial_stage e) sevs)))
                      (Some "")] |}.
Proof.
  set (st := stage_steps (initial_stage e) sevs).
  intros Hc Hs.
  pose proof (StageInv_reachable e sevs) as HI. fold st in HI.
  destruct (find_some _ _ Hc) as [Hin Hm].
  pose proof (mounted_camera_shown st c HI Hin Hm) as Hshown.
  assert (Hok : camera_ok c).
  { destruct HI as [_ He]. rewrite Forall_forall in He. now apply He. }
  destruct Hok as (_ & _ & _ & _ & H5 & _).
  cbn [stage_step]. rewrite Hc. cbn [app_transition app_world].
  unfold video_frame. rewrite (H5 Hs). cbn [canvas_toDataURL].
  rewrite (shutter_step (app_world st) "data:," Hshown). reflexivity.
Qed.

Lemma shutter_without_stream_sends_empty_image_witness :
  app_world (stage_step (stage_steps (initial_stage no_key) [AppEvent ClickOpenCamera])
                        (PressShutter (Some [Byte.xff; Byte.xd8]))) =
    {| env := env (app_world (stage_steps (initial_stage no_key) [AppEvent ClickOpenCamera]));
       session :=
         {| state := ANALYZING;
            result := result (session (app_world (stage_steps (initial_stage no_key)
                                                    [AppEvent ClickOpenCamera])));
            imagePreview := Some "data:image/jpeg;base64,";
            errorMsg := errorMsg (session (app_world (stage_steps (initial_stage no_key)
                                                        [AppEvent ClickOpenCamera]))) |};
       mounted := true;
       readers := readers (app_world (stage_steps (initial_stage no_key)
                                        [AppEvent ClickOpenCamera]));
       inflight := inflight (app_world (stage_steps (initial_stage no_key)
                                          [AppEvent ClickOpenCamera])) ++
                   [performAIAnalysis
                      (env (app_world (stage_steps (initial_stage no_key)
                                         [AppEvent ClickOpenCamera])))
                      (Some "")] |}.
Proof.
  apply (shutter_without_stream_sends_empty_image no_key [AppEvent ClickOpenCamera]
           (Some [Byte.xff; Byte.xd8]) new_camera).
  - reflexivity.
  - reflexivity.
Defined.

Lemma payload_of_canvas_jpeg (bytes : list Byte.byte) :
  payload_of (canvas_toDataURL (Some bytes)) = Some (base64_encode bytes).
Proof.
  unfold payload_of, canvas_toDataURL.
  change ("data:image/jpeg;base64," ++ base64_encode bytes)%string
    with ("data:image/jpeg;base64" ++ String (chr 44) (base64_encode bytes))%string.
  rewrite split_on_comma_app by reflexivity.
  rewrite split_on_no_comma by apply base64_no_comma. reflexivity.
Qed.

(** X13. A capture, with a stream attached and a frame decoded: the preview
    stored is exactly the data URL of the canvas, the call is made with the
    base64 text of the JPEG, the session is [ANALYZING], and the camera view
    goes, stopping the stream. *)
Theorem capture_stores_frame_and_stops_camera (e : ProcessEnv)
  (sevs : list StageEvent) (jpeg : list Byte.byte) (c : Camera) (s : nat) :
  mounted_camera (cameras (stage_steps (initial_stage e) sevs)) = Some c ->
  cam_srcObject c = Some s ->
  app_world (stage_step (stage_steps (initial_stage e) sevs) (PressShutter (Some jpeg))) =
    {| env := env (app_world (stage_steps (initial_stage e) sevs));
       session :=
         {| state := ANALYZING;
            result := result (session (app_world (stage_steps (initial_stage e) sevs)));
            imagePreview := Some (canvas_toDataURL (Some jpeg));
            errorMsg := errorMsg (session (app_world (stage_steps (initial_stage e) sevs))) |};
       mounted := true;
       readers := readers (app_world (stage_steps (initial_stage e) sevs));
       inflight := inflight (app_world (stage_steps (initial_stage e) sevs)) ++
                   [performAIAnalysis
                      (env (app_world (stage_steps (initial_stage e) sevs)))
                      (Some (base64_encode jpeg))] |} /\
  cameras (stage_step (stage_steps (initial_stage e) sevs) (PressShutter (Some jpeg))) =
    map unmount_camera (cameras (stage_steps (initial_stage e) sevs)) /\
  mounted_camera
    (cameras (stage_step (stage_steps (initial_stage e) sevs) (PressShutter (Some jpeg))))
    = None /\
  In (unmount_camera c)
     (cameras (stage_step (stage_steps (initial_stage e) sevs) (PressShutter (Some jpeg)))) /\
  stream_live (unmount_camera c) = false.
Proof.
  set (st := stage_steps (initial_stage e) sevs).
  intros Hc Hsrc.
  pose proof (StageInv_reachable e sevs) as HI. fold st in HI.
  destruct (find_some _ _ Hc) as [Hin Hm].
  pose proof (mounted_camera_shown st c HI Hin Hm) as Hshown.
  assert (Hok : camera_ok c).
  { destruct HI as [_ He]. rewrite Forall_forall in He. now apply He. }
  destruct Hok as (_ & _ & _ & _ & H5 & _).
  assert (W : app_world (stage_step st (PressShutter (Some jpeg))) =
              {| env := env (app_world st);
                 session := {| state := ANALYZING;
                               result := result (session (app_world st));
                               imagePreview := Some (canvas_toDataURL (Some jpeg));
                               errorMsg := errorMsg (session (app_world st)) |};
                 mounted := true;
                 readers := readers (app_world st);
                 inflight := inflight (app_world st) ++
                             [performAIAnalysis (env (app_world st))
                                (Some (base64_encode jpeg))] |}).
  { cbn [stage_step]. rewrite Hc. cbn [app_transition app_world].
    unfold video_frame. rewrite Hsrc.
    rewrite (shutter_step (app_world st) _ Hshown), payload_of_canvas_jpeg.
    reflexivity. }
  assert (C : cameras (stage_step st (PressShutter (Some jpeg))) =
              map unmount_camera (cameras st)).
  { pose proof W as W'. cbn [stage_step] in W' |- *. rewrite Hc in W' |- *.
    cbn [app_transition app_world cameras] in W' |- *.
    unfold sync_cameras. rewrite Hshown, W'. reflexivity. }
  split; [exact W|]. split; [exact C|]. split; [|split].
  - rewrite C. apply find_unmounted.
  - rewrite C. now apply in_map.
  - unfold unmount_camera, stream_live. rewrite Hm. cbn.
    destruct (cam_stream c) eqn:S1; [reflexivity|].
    rewrite (H5 eq_refl) in Hsrc. discriminate.
Qed.

Lemma capture_stores_frame_and_stops_camera_witness :
  app_world (stage_step (stage_steps (initial_stage no_key)
                           [AppEvent ClickOpenCamera; CameraGranted 0 7])
                        (PressShutter (Some [Byte.xff; Byte.xd8]))) =
    {| env := env (app_world (stage_steps (initial_stage no_key)
                                [AppEvent ClickOpenCamera; CameraGranted 0 7]));
       session :=
         {| state := ANALYZING;
            result := result (session (app_world (stage_steps (initial_stage no_key)
                                 [AppEvent ClickOpenCamera; CameraGranted 0 7])));
            imagePreview := Some (canvas_toDataURL (Some [Byte.xff; Byte.xd8]));
            errorMsg := errorMsg (session (app_world (stage_steps (initial_stage no_key)
                                 [AppEvent ClickOpenCamera; CameraGranted 0 7]))) |};
       mounted := true;
       readers := readers (app_world (stage_steps (initial_stage no_key)
                                 [AppEvent ClickOpenCamera; CameraGranted 0 7]));
       inflight := inflight (app_world (stage_steps (initial_stage no_key)
                                 [AppEvent ClickOpenCamera; CameraGranted 0 7])) ++
                   [performAIAnalysis
                      (env (app_world (stage_steps (initial_stage no_key)
                                 [AppEvent ClickOpenCamera; CameraGranted 0 7])))
                      (Some (base64_encode [Byte.xff; Byte.xd8]))] |} /\
  cameras (stage_step (stage_steps (initial_stage no_key)
                         [AppEvent ClickOpenCamera; CameraGranted 0 7])
                      (PressShutter (Some [Byte.xff; Byte.xd8]))) =
    map unmount_camera (cameras (stage_steps (initial_stage no_key)
                                   [AppEvent ClickOpenCamera; CameraGranted 0 7])) /\
  mounted_camera
    (cameras (stage_step (stage_steps (initial_stage no_key)
                            [AppEvent ClickOpenCamera; CameraGranted 0 7])
                         (PressShutter (Some [Byte.xff; Byte.xd8]))))
    = None /\
  In (unmount_camera
        {| cam_mounted := true; cam_request := Granted; cam_stream := Some 7;
           cam_srcObject := Some 7; cam_stops := 0 |})
     (cameras (stage_step (stage_steps (initial_stage no_key)
                             [AppEvent ClickOpenCamera; CameraGranted 0 7])
                          (PressShutter (Some [Byte.xff; Byte.xd8])))) /\
  stream_live
    (unmount_camera
       {| cam_mounted := true; cam_request := Granted; cam_stream := Some 7;
          cam_srcObject := Some 7; cam_stops := 0 |}) = false.
Proof.
  apply (capture_stores_frame_and_stops_camera no_key
           [AppEvent ClickOpenCamera; CameraGranted 0 7]
           [Byte.xff; Byte.xd8]
           {| cam_mounted := true; cam_request := Granted; cam_stream := Some 7;
              cam_srcObject := Some 7; cam_stops := 0 |} 7).
  - reflexivity.
  - reflexivity.
Defined.

(** X14. A refused request for the camera shows the alert once, whether its
    view is still on screen or not, and changes nothing in the component: a
    view on screen stays, without a stream, until the user leaves it.  Once
    answered, a request is not answered again. *)
Theorem camera_denial_alerts_once (st : Stage) (i : nat) (c : Camera) (s : nat) :
  nth_error (cameras st) i = Some c ->
  cam_request c = Pending ->
  app_world (stage_step st (CameraDenied i)) = app_world st /\
  alerts (stage_step st (CameraDenied i)) = alerts st ++ [CAMERA_ALERT] /\
  nth_error (cameras (stage_step st (CameraDenied i))) i =
    Some {| cam_mounted := cam_mounted c; cam_request := Denied;
            cam_stream := cam_stream c; cam_srcObject := cam_srcObject c;
            cam_stops := cam_stops c |} /\
  stage_step (stage_step st (CameraDenied i)) (CameraDenied i) =
    stage_step st (CameraDenied i) /\
  stage_step (stage_step st (CameraDenied i)) (CameraGranted i s) =
    stage_step st (CameraDenied i).
Proof.
  intros Hi Hr.
  assert (N : nth_error (cameras (stage_step st (CameraDenied i))) i =
              Some {| cam_mounted := cam_mounted c; cam_request := Denied;
                      cam_stream := cam_stream c; cam_srcObject := cam_srcObject c;
                      cam_stops := cam_stops c |}).
  { cbn [stage_step cameras]. rewrite nth_error_update_nth, Nat.eqb_refl, Hi.
    cbn [option_map]. unfold deny_camera. now rewrite Hr. }
  split; [reflexivity|]. split.
  - cbn [stage_step alerts]. rewrite Hi. unfold is_pending. now rewrite Hr.
  - split; [exact N|]. split.
    + set (st1 := stage_step st (CameraDenied i)) in *.
      unfold stage_step at 1. rewrite N. cbn [is_pending cam_request].
      rewrite (update_nth_fixed deny_camera i _ _ N eq_refl).
      destruct st1; reflexivity.
    + set (st1 := stage_step st (CameraDenied i)) in *.
      unfold stage_step at 1.
      rewrite (update_nth_fixed (grant_camera s) i _ _ N eq_refl).
      destruct st1; reflexivity.
Qed.

Lemma camera_denial_alerts_once_witness :
  app_world (stage_step closed_early_stage (CameraDenied 0)) = app_world closed_early_stage /\
  alerts (stage_step closed_early_stage (CameraDenied 0))
    = alerts closed_early_stage ++ [CAMERA_ALERT] /\
  nth_error (cameras (stage_step closed_early_stage (CameraDenied 0))) 0 =
    Some {| cam_mounted := false; cam_request := Denied;
            cam_stream := None; cam_srcObject := None; cam_stops := 0 |} /\
  stage_step (stage_step closed_early_stage (CameraDenied 0)) (CameraDenied 0) =
    stage_step closed_early_stage (CameraDenied 0) /\
  stage_step (stage_step closed_early_stage (CameraDenied 0)) (CameraGranted 0 7) =
    stage_step closed_early_stage (CameraDenied 0).
Proof.
  apply (camera_denial_alerts_once closed_early_stage 0
           {| cam_mounted := false; cam_request := Pending; cam_stream := None;
              cam_srcObject := None; cam_stops := 0 |} 7).
  - reflexivity.
  - reflexivity.
Defined.

(* ===================================================================== *)
(** ** Sequences of events *)
(* ===================================================================== *)

Lemma session_eta_idle (s : Session) :
  state s = IDLE ->
  {| state := IDLE; result := result s; imagePreview := imagePreview s;
     errorMsg := errorMsg s |} = s.
Proof. destruct s; cbn. now intros ->. Qed.

Lemma update_nth_last {A : Type} (f : A -> A) (l : list A) (x : A) :
  update_nth (length l) f (l ++ [x]) = l ++ [f x].
Proof. induction l as [|y l IH]; cbn; [reflexivity | now rewrite IH]. Qed.

(** X15. Nothing limits the analyses to one at a time: two files chosen in
    [IDLE] are both read, and each load starts its own call, the second
    while the first is outstanding.  The preview is then that of the second
    file, also when the call that completes is the first one. *)
Theorem second_upload_runs_beside_first (w : World) (f1 f2 : File)
  (url1 url2 : string) (o : RemoteOutcome) :
  mounted w = true ->
  state (session w) = IDLE ->
  steps w [ChooseFile (Some f1); ChooseFile (Some f2);
           ReaderLoaded (length (readers w)) url1;
           ReaderLoaded (length (readers w)) url2] =
    {| env := env w;
       session := {| state := ANALYZING; result := result (session w);
                     imagePreview := Some (preview_of (payload_of url2));
                     errorMsg := errorMsg (session w) |};
       mounted := true;
       readers := readers w;
       inflight := inflight w ++ [performAIAnalysis (env w) (payload_of url1);
                                  performAIAnalysis (env w) (payload_of url2)] |} /\
  imagePreview
    (session
       (step (steps w [ChooseFile (Some f1); ChooseFile (Some f2);
                       ReaderLoaded (length (readers w)) url1;
                       ReaderLoaded (length (readers w)) url2])
             (AnalysisCompleted (length (inflight w)) o)))
    = Some (preview_of (payload_of url2)).
Proof.
  intros Hm Hs.
  assert (E : steps w [ChooseFile (Some f1); ChooseFile (Some f2);
                       ReaderLoaded (length (readers w)) url1;
                       ReaderLoaded (length (readers w)) url2] =
              {| env := env w;
                 session := {| state := ANALYZING; result := result (session w);
                               imagePreview := Some (preview_of (payload_of url2));
                               errorMsg := errorMsg (session w) |};
                 mounted := true;
                 readers := readers w;
                 inflight := inflight w ++
                             [performAIAnalysis (env w) (payload_of url1);
                              performAIAnalysis (env w) (payload_of url2)] |}).
  { unfold steps. cbn [fold_left].
    rewrite (choose_file_step w f1 Hm Hs).
    set (w1 := {| env := env w; session := session w; mounted := true;
                  readers := readers w ++ [f1]; inflight := inflight w |}).
    rewrite (choose_file_step w1 f2 eq_refl Hs).
    set (w2 := {| env := env w1; session := session w1; mounted := true;
                  readers := readers w1 ++ [f2]; inflight := inflight w1 |}).
    assert (R1 : nth_error (readers w2) (length (readers w)) = Some f1).
    { cbn [w2 w1 readers]. rewrite <- app_assoc. cbn [app].
      rewrite nth_error_app2 by lia. now rewrite Nat.sub_diag. }
    rewrite (late_file_load_starts_analysis_aux w2 _ f1 url1 eq_refl R1).
    set (w3 := {| env := env w2;
                  session := {| state := ANALYZING; result := result (session w2);
                                imagePreview := Some (preview_of (payload_of url1));
                                errorMsg := errorMsg (session w2) |};
                  mounted := true;
                  readers := remove_nth (length (readers w)) (readers w2);
                  inflight := inflight w2 ++
                              [performAIAnalysis (env w2) (payload_of url1)] |}).
    assert (R2 : readers w3 = readers w ++ [f2]).
    { cbn [w3 w2 w1 readers]. rewrite <- app_assoc. cbn [app].
      apply remove_nth_middle. }
    assert (R3 : nth_error (readers w3) (length (readers w)) = Some f2).
    { rewrite R2. apply nth_error_last. }
    rewrite (late_file_load_starts_analysis_aux w3 _ f2 url2 eq_refl R3).
    rewrite R2, remove_nth_last.
    cbn [w3 w2 w1 env session readers inflight state result imagePreview errorMsg].
    now rewrite <- app_assoc. }
  split; [exact E|].
  rewrite E.
  match goal with
  | |- context [step ?w4 _] =>
      rewrite (completion_applied w4 (length (inflight w))
                 (performAIAnalysis (env w) (payload_of url1)) o eq_refl)
  end.
  - cbn [session imagePreview]. destruct (settle _ o); reflexivity.
  - cbn [inflight]. rewrite nth_error_app2 by lia. now rewrite Nat.sub_diag.
Qed.

Lemma second_upload_runs_beside_first_witness :
  steps (initial_world no_key)
    [ChooseFile (Some small_png); ChooseFile (Some empty_png);
     ReaderLoaded (length (readers (initial_world no_key))) (readAsDataURL small_png);
     ReaderLoaded (length (readers (initial_world no_key))) (readAsDataURL empty_png)] =
    {| env := env (initial_world no_key);
       session := {| state := ANALYZING;
                     result := result (session (initial_world no_key));
                     imagePreview :=
                       Some (preview_of (payload_of (readAsDataURL empty_png)));
                     errorMsg := errorMsg (session (initial_world no_key)) |};
       mounted := true;
       readers := readers (initial_world no_key);
       inflight := inflight (initial_world no_key) ++
                   [performAIAnalysis (env (initial_world no_key))
                      (payload_of (readAsDataURL small_png));
                    performAIAnalysis (env (initial_world no_key))
                      (payload_of (readAsDataURL empty_png))] |} /\
  imagePreview
    (session
       (step (steps (initial_world no_key)
                [ChooseFile (Some small_png); ChooseFile (Some empty_png);
                 ReaderLoaded (length (readers (initial_world no_key)))
                   (readAsDataURL small_png);
                 ReaderLoaded (length (readers (initial_world no_key)))
                   (readAsDataURL empty_png)])
             (AnalysisCompleted (length (inflight (initial_world no_key))) Rejected)))
    = Some (preview_of (payload_of (readAsDataURL empty_png))).
Proof.
  apply (second_upload_runs_beside_first (initial_world no_key) small_png empty_png).
  - reflexivity.
  - reflexivity.
Defined.

(** X16. In [ERROR] the back button and the home button do the same: the
    session returns to [IDLE] and nothing else changes; the message stays
    stored, out of sight, until the next failure overwrites it. *)
Theorem back_from_error_keeps_fields (w : World) :
  mounted w = true ->
  state (session w) = ERROR ->
  step w ClickBack =
    {| env := env w;
       session := {| state := IDLE; result := result (session w);
                     imagePreview := imagePreview (session w);
                     errorMsg := errorMsg (session w) |};
       mounted := true;
       readers := readers w;
       inflight := inflight w |} /\
  step w ClickHome = step w ClickBack /\
  main_view (session (step w ClickBack)) = Some IdleView /\
  step w ClickNewScan = w /\
  step w (ChooseFile None) = w.
Proof.
  intros Hm Hs.
  assert (B : step w ClickBack =
              {| env := env w;
                 session := {| state := IDLE; result := result (session w);
                               imagePreview := imagePreview (session w);
                               errorMsg := errorMsg (session w) |};
                 mounted := true; readers := readers w; inflight := inflight w |}).
  { unfold step. rewrite Hm. cbn [handler consume]. rewrite Hs.
    unfold commit, rerender, renders. cbn. now rewrite Hm. }
  split; [exact B|]. split; [|split; [|split]].
  - unfold step. rewrite Hm. cbn [handler consume]. now rewrite Hs.
  - now rewrite B.
  - unfold step. rewrite Hm. cbn [handler consume]. now rewrite Hs.
  - unfold step. rewrite Hm. cbn [handler consume]. now rewrite Hs.
Qed.

Lemma back_from_error_keeps_fields_witness :
  step failed_after_success_world ClickBack =
    {| env := env failed_after_success_world;
       session := {| state := IDLE;
                     result := result (session failed_after_success_world);
                     imagePreview := imagePreview (session failed_after_success_world);
                     errorMsg := errorMsg (session failed_after_success_world) |};
       mounted := true;
       readers := readers failed_after_success_world;
       inflight := inflight failed_after_success_world |} /\
  step failed_after_success_world ClickHome = step failed_after_success_world ClickBack /\
  main_view (session (step failed_after_success_world ClickBack)) = Some IdleView /\
  step failed_after_success_world ClickNewScan = failed_after_success_world /\
  step failed_after_success_world (ChooseFile None) = failed_after_success_world.
Proof.
  apply (back_from_error_keeps_fields failed_after_success_world).
  - vm_compute. reflexivity.
  - vm_compute. reflexivity.
Defined.

Lemma open_camera_world (w : World) :
  mounted w = true -> state (session w) = IDLE ->
  camera_shown (step w ClickOpenCamera) = true.
Proof.
  destruct w as [e [st res ip em] m r i]. cbn. intros -> ->. reflexivity.
Qed.

Lemma open_close_world (w : World) :
  mounted w = true -> state (session w) = IDLE ->
  step (step w ClickOpenCamera) ClickCloseCamera = w.
Proof.
  destruct w as [e [st res ip em] m r i]. cbn. intros -> ->. reflexivity.
Qed.

(** X17. Opening the camera from [IDLE], obtaining the stream and closing the
    view brings the component back to the very world it was in: no field is
    written and nothing is started.  One camera view has been added to the
    past ones; it is unmounted and its stream was stopped once. *)
Theorem open_grant_close_round_trip (e : ProcessEnv) (sevs : list StageEvent)
  (s : nat) :
  mounted (app_world (stage_steps (initial_stage e) sevs)) = true ->
  state (session (app_world (stage_steps (initial_stage e) sevs))) = IDLE ->
  stage_steps (stage_steps (initial_stage e) sevs)
    [AppEvent ClickOpenCamera;
     CameraGranted (length (cameras (stage_steps (initial_stage e) sevs))) s;
     AppEvent ClickCloseCamera] =
    {| app_world := app_world (stage_steps (initial_stage e) sevs);
       cameras := cameras (stage_steps (initial_stage e) sevs) ++
                  [{| cam_mounted := false; cam_request := Granted;
                      cam_stream := Some s; cam_srcObject := None;
                      cam_stops := 1 |}];
       alerts := alerts (stage_steps (initial_stage e) sevs) |}.
Proof.
  set (st := stage_steps (initial_stage e) sevs).
  intros Hm Hs.
  pose proof (StageInv_reachable e sevs) as HI. fold st in HI.
  assert (Hnot : camera_shown (app_world st) = false).
  { unfold camera_shown. rewrite Hs. apply andb_false_r. }
  assert (Hall : map unmount_camera (cameras st) = cameras st).
  { destruct HI as [[n Hn] _]. rewrite Hnot, app_nil_r in Hn.
    assert (F : Forall (fun c => cam_mounted c = false) (cameras st)).
    { rewrite Forall_forall. intros c Hc.
      apply (in_map cam_mounted) in Hc. rewrite Hn in Hc.
      now apply repeat_spec in Hc. }
    clear Hn. induction F as [|c l Hc Hl IH]; [reflexivity|].
    cbn [map]. rewrite IH. unfold unmount_camera. now rewrite Hc. }
  pose proof (open_camera_world (app_world st) Hm Hs) as Hopen.
  pose proof (open_close_world (app_world st) Hm Hs) as Hclose.
  assert (S1 : stage_step st (AppEvent ClickOpenCamera) =
               {| app_world := step (app_world st) ClickOpenCamera;
                  cameras := cameras st ++ [new_camera];
                  alerts := alerts st |}).
  { cbn [stage_step]. unfold app_transition, sync_cameras.
    now rewrite Hnot, Hopen. }
  unfold stage_steps. cbn [fold_left]. rewrite S1.
  cbn [stage_step app_world cameras alerts]. rewrite update_nth_last.
  unfold app_transition, sync_cameras. cbn [app_world cameras alerts].
  rewrite Hclose, Hopen, Hnot, map_app, Hall. reflexivity.
Qed.

Lemma open_grant_close_round_trip_witness :
  stage_steps (stage_steps (initial_stage no_key) [])
    [AppEvent ClickOpenCamera;
     CameraGranted (length (cameras (stage_steps (initial_stage no_key) []))) 7;
     AppEvent ClickCloseCamera] =
    {| app_world := app_world (stage_steps (initial_stage no_key) []);
       cameras := cameras (stage_steps (initial_stage no_key) []) ++
                  [{| cam_mounted := false; cam_request := Granted;
                      cam_stream := Some 7; cam_srcObject := None;
                      cam_stops := 1 |}];
       alerts := alerts (stage_steps (initial_stage no_key) []) |}.
Proof.
  apply (open_grant_close_round_trip no_key [] 7).
  - reflexivity.
  - reflexivity.
Defined.
